(** * image-scraper: the scrape endpoint, embedded and verified

    The server renders a page twice (desktop, mobile), extracts image
    records inside the page, merges the two record lists in a [Map] keyed
    by URL, probes every URL for its size and answers with the sized
    records.  This file embeds the pieces of that pipeline that carry
    logic: [resolveUrl], the merge, the data-URI regular expressions, the
    HEAD/GET fallback, the size display, the [Promise.all] fan-out and the
    page life cycle of the request handler.

    Conventions.  A JavaScript string is a [string]; one character stands
    for one UTF-16 code unit, so the strings covered are those whose code
    units are below 256.  A JavaScript number that holds a size is a
    [jsnum]: an integer or [NaN].  Built-ins of the platform whose code is
    not part of the repository (the WHATWG URL parser, [decodeURIComponent],
    the network, Puppeteer's [Page.close]) are parameters of the model. *)

From Stdlib Require Import String Ascii List ZArith Lia Bool DecimalString.
From Stdlib Require DecimalPos DecimalN.
From Stdlib Require Import Permutation Sorted.
Import ListNotations.

Open Scope string_scope.
Open Scope Z_scope.

(** ** JavaScript strings *)

Module JsString.

(** [s.startsWith(p)] *)
Definition startsWith (s p : string) : bool := String.prefix p s.

(** Truthiness of a string value: only the empty string is falsy. *)
Definition truthy (s : string) : bool :=
  match s with EmptyString => false | String _ _ => true end.

(** [s.length] *)
Definition jsLength (s : string) : Z := Z.of_nat (String.length s).



Lemma truthy_nonempty (s : string) : truthy s = true <-> s <> "".
Proof.
  destruct s; simpl; split; intro H; try reflexivity;
    try discriminate; try congruence.
Qed.

Lemma length_app (a b : string) :
  String.length (a ++ b) = (String.length a + String.length b)%nat.
Proof. induction a as [|c a IH]; simpl; [reflexivity | now rewrite IH]. Qed.

Lemma append_assoc (a b c : string) : (a ++ b) ++ c = a ++ (b ++ c).
Proof. induction a as [|x a IH]; simpl; [reflexivity | now rewrite IH]. Qed.

Lemma append_nil_r (a : string) : a ++ "" = a.
Proof. induction a as [|x a IH]; simpl; [reflexivity | now rewrite IH]. Qed.

End JsString.

Import JsString.

(** ** URL resolution inside the page ([resolveUrl], part_000 lines 56-66) *)

Module Resolve.

(** What the page context supplies to [resolveUrl]: the page URL, the
    [origin] of [new URL(pageUrl)], and the answer of the URL parser,
    [href src = Some h] when [new URL(src, pageUrl).href] is [h] and
    [None] when the constructor throws. *)
Record PageContext : Type := {
  pageUrl : string;
  origin : string;
  href : string -> option string
}.

Definition resolveUrl (pc : PageContext) (src : string) : string :=
  if negb (truthy src) || startsWith src "data:" then src
  else if startsWith src "http" then src
  else if startsWith src "//" then "https:" ++ src
  else if startsWith src "/" then origin pc ++ src
  else match href pc src with
       | Some h => h
       | None => src          (* catch (e) { return src; } *)
       end.

(** An absolute http(s) URL, and a data: URI. *)
Definition isHttpUrl (s : string) : bool :=
  startsWith s "http://" || startsWith s "https://".

Definition isDataUri (s : string) : bool := startsWith s "data:".


(** A page used in the examples.  The parser's answers are tabulated for
    the four strings the examples use: two relative file names and a name
    that begins with the letters http, which resolve against the directory
    of the page, and an absolute ftp URL, which is its own href.  The
    examples below resolve these four strings only; at any other string
    the table has no entry. *)
Definition galleryPage : PageContext := {|
  pageUrl := "https://example.com/gallery/index.html";
  origin := "https://example.com";
  href := fun src =>
    if String.eqb src "a.jpg" then Some "https://example.com/gallery/a.jpg"
    else if String.eqb src "b.jpg" then Some "https://example.com/gallery/b.jpg"
    else if String.eqb src "httpbin/logo.png"
         then Some "https://example.com/gallery/httpbin/logo.png"
    else if String.eqb src "ftp://example.org/logo.png"
         then Some "ftp://example.org/logo.png"
    else None
|}.

(** *** Facts about [resolveUrl] *)









(** C3 at a relative file name that begins with the letters http: the
    second guard of [resolveUrl] returns it as it is, although it is not an
    absolute URL and the parser would have resolved it against the page. *)
Theorem resolveUrl_http_prefixed_name_unresolved :
  isHttpUrl "httpbin/logo.png" = false /\
  isDataUri "httpbin/logo.png" = false /\
  startsWith "httpbin/logo.png" "/" = false /\
  href galleryPage "httpbin/logo.png"
    = Some "https://example.com/gallery/httpbin/logo.png" /\
  resolveUrl galleryPage "httpbin/logo.png" = "httpbin/logo.png".
Proof. repeat split. Qed.

End Resolve.

(** ** A JavaScript [Map] with string keys

    Entries in insertion order; [set] on a key that is present replaces the
    value where the key stands, [set] on a new key appends. *)

Module JsMap.

Section WithValues.

Variable V : Type.

Definition t : Type := list (string * V).

Definition empty : t := [].

Fixpoint has (k : string) (m : t) : bool :=
  match m with
  | [] => false
  | (k', _) :: m' => if String.eqb k' k then true else has k m'
  end.

Fixpoint set (k : string) (v : V) (m : t) : t :=
  match m with
  | [] => [(k, v)]
  | (k', v') :: m' =>
      if String.eqb k' k then (k', v) :: m' else (k', v') :: set k v m'
  end.

Definition keys (m : t) : list string := map fst m.

(** [Array.from(m.values())] *)
Definition values (m : t) : list V := map snd m.

Lemma has_In (k : string) (m : t) : has k m = true <-> In k (keys m).
Proof.
  induction m as [|[k' v'] m IH]; simpl.
  - split; [discriminate | tauto].
  - destruct (String.eqb_spec k' k) as [->|n].
    + split; auto.
    + rewrite IH. split; [auto | intros [e|i]; [contradiction | exact i]].
Qed.

Lemma has_app (k : string) (m1 m2 : t) :
  has k (m1 ++ m2)%list = has k m1 || has k m2.
Proof.
  induction m1 as [|[k' v'] m1 IH]; simpl; [reflexivity|].
  destruct (String.eqb k' k); [reflexivity | exact IH].
Qed.

Lemma set_absent (k : string) (v : V) (m : t) :
  has k m = false -> set k v m = (m ++ [(k, v)])%list.
Proof.
  induction m as [|[k' v'] m IH]; simpl; [reflexivity|].
  destruct (String.eqb k' k); [discriminate|].
  intro H. now rewrite IH.
Qed.

Lemma keys_set (k : string) (v : V) (m : t) :
  keys (set k v m) = if has k m then keys m else (keys m ++ [k])%list.
Proof.
  induction m as [|[k' v'] m IH]; simpl; [reflexivity|].
  destruct (String.eqb k' k); simpl; [reflexivity|].
  rewrite IH. now destruct (has k m).
Qed.

Lemma keys_set_NoDup (k : string) (v : V) (m : t) :
  NoDup (keys m) -> NoDup (keys (set k v m)).
Proof.
  intro H. rewrite keys_set. destruct (has k m) eqn:E; [exact H|].
  assert (Hn : ~ In k (keys m)).
  { intro Hi. apply has_In in Hi. congruence. }
  clear E. induction (keys m) as [|x l IH]; simpl.
  - constructor; [tauto | constructor].
  - inversion H; subst. constructor.
    + rewrite in_app_iff. simpl. intros [i|[e|[]]]; [tauto|].
      subst. apply Hn. now left.
    + apply IH; [assumption|]. intro i. apply Hn. now right.
Qed.

End WithValues.

Arguments empty {V}.
Arguments has {V} k m.
Arguments set {V} k v m.
Arguments keys {V} m.
Arguments values {V} m.

End JsMap.

(** ** Image records and the merge of the two viewports
       (part_000 lines 217-264) *)

Module Merge.

(** What [extractImagesFromPage] returns for one image, after the px
    suffix was added: five strings. *)
Record ImageRecord : Type := {
  url : string;
  width : string;
  height : string;
  alt : string;
  type : string
}.

(** [desktopImages.forEach(img => allImages.set(img.url, img))] *)
Definition insertDesktop (allImages : JsMap.t ImageRecord)
  (desktopImages : list ImageRecord) : JsMap.t ImageRecord :=
  fold_left (fun m img => JsMap.set (url img) img m) desktopImages allImages.

(** The mobile loop, threading the map and the counter [newMobileImages]. *)
Definition insertMobile (st : JsMap.t ImageRecord * Z)
  (mobileImages : list ImageRecord) : JsMap.t ImageRecord * Z :=
  fold_left
    (fun st img =>
       if JsMap.has (url img) (fst st) then st
       else (JsMap.set (url img) img (fst st), snd st + 1))
    mobileImages st.

(** From the two extraction results to [images] and [newMobileImages]. *)
Definition mergeViewports (desktopImages mobileImages : list ImageRecord)
  : list ImageRecord * Z :=
  let allImages := insertDesktop JsMap.empty desktopImages in
  let st := insertMobile (allImages, 0) mobileImages in
  (JsMap.values (fst st), snd st).

(** The mobile records whose URL no desktop record has. *)
Definition mobileOnly (desktopImages mobileImages : list ImageRecord)
  : list ImageRecord :=
  filter (fun m => negb (existsb (String.eqb (url m)) (map url desktopImages)))
         mobileImages.

(** Entries of the map as the handler builds them: keyed by the record's
    own URL. *)
Definition entries (l : list ImageRecord) : JsMap.t ImageRecord :=
  map (fun r => (url r, r)) l.

(** The two record lists of the spec's scenario: desktop {A, B} and mobile
    {B, C}, the mobile copy of B with the dimensions of the narrow layout. *)
Definition recA : ImageRecord :=
  {| url := "https://example.com/a.png"; width := "800px"; height := "600px";
     alt := "A"; type := "img" |}.
Definition recB : ImageRecord :=
  {| url := "https://example.com/b.png"; width := "1200px"; height := "400px";
     alt := "B"; type := "img" |}.
Definition recB_mobile : ImageRecord :=
  {| url := "https://example.com/b.png"; width := "375px"; height := "125px";
     alt := "B"; type := "background" |}.
Definition recC : ImageRecord :=
  {| url := "https://example.com/c.png"; width := "Natural"; height := "Natural";
     alt := "Picture/video source"; type := "source" |}.

(** *** Facts about the merge *)

Lemma has_entries (k : string) (l : list ImageRecord) :
  JsMap.has k (entries l) = existsb (String.eqb k) (map url l).
Proof.
  induction l as [|r l IH]; simpl; [reflexivity|].
  rewrite (String.eqb_sym (url r) k).
  destruct (String.eqb k (url r)); [reflexivity | exact IH].
Qed.

Lemma values_entries (l : list ImageRecord) : JsMap.values (entries l) = l.
Proof.
  unfold JsMap.values, entries. rewrite map_map. simpl. apply map_id.
Qed.

Lemma entries_app (l1 l2 : list ImageRecord) :
  entries (l1 ++ l2)%list = (entries l1 ++ entries l2)%list.
Proof. apply map_app. Qed.

Lemma insertDesktop_fresh (ds : list ImageRecord) :
  forall m : JsMap.t ImageRecord,
  NoDup (map url ds) ->
  (forall d, In d ds -> JsMap.has (url d) m = false) ->
  insertDesktop m ds = (m ++ entries ds)%list.
Proof.
  unfold insertDesktop.
  induction ds as [|a ds IH]; intros m Hnd Hfresh; simpl.
  - now rewrite app_nil_r.
  - inversion Hnd as [|x l Hna Hnd']; subst.
    rewrite JsMap.set_absent by (apply Hfresh; now left).
    rewrite IH; [now rewrite <- app_assoc | assumption |].
    intros d Hd. rewrite JsMap.has_app, (Hfresh d) by now right.
    simpl. destruct (String.eqb_spec (url a) (url d)) as [e|_]; [|reflexivity].
    exfalso. apply Hna. rewrite e. now apply in_map.
Qed.

Lemma insertMobile_fresh (ms : list ImageRecord) :
  forall (m : JsMap.t ImageRecord) (n : Z),
  NoDup (map url ms) ->
  let fresh := filter (fun x => negb (JsMap.has (url x) m)) ms in
  insertMobile (m, n) ms = ((m ++ entries fresh)%list, n + Z.of_nat (length fresh)).
Proof.
  unfold insertMobile.
  induction ms as [|a ms IH]; intros m n Hnd; simpl.
  - now rewrite app_nil_r, Z.add_0_r.
  - inversion Hnd as [|x l Hna Hnd']; subst.
    destruct (JsMap.has (url a) m) eqn:E; simpl.
    + now apply IH.
    + rewrite JsMap.set_absent by assumption.
      rewrite IH by assumption. cbv zeta.
      assert (Hf : filter (fun x => negb (JsMap.has (url x) (m ++ [(url a, a)])%list)) ms
                   = filter (fun x => negb (JsMap.has (url x) m)) ms).
      { apply filter_ext_in. intros x Hx. rewrite JsMap.has_app. simpl.
        destruct (String.eqb_spec (url a) (url x)) as [e|_].
        - exfalso. apply Hna. rewrite e. now apply in_map.
        - now rewrite orb_false_r. }
      rewrite Hf. simpl. rewrite <- app_assoc. simpl. f_equal. lia.
Qed.

(** The map the handler builds is keyed by each record's own URL and has
    no key twice, whatever the two extraction results are. *)
Definition keyed (m : JsMap.t ImageRecord) : Prop :=
  Forall (fun e => fst e = url (snd e)) m /\ NoDup (JsMap.keys m).

Lemma keyed_set (r : ImageRecord) (m : JsMap.t ImageRecord) :
  keyed m -> keyed (JsMap.set (url r) r m).
Proof.
  intros [Hk Hn]. split; [|now apply JsMap.keys_set_NoDup].
  clear Hn. induction m as [|[k v] m IH]; simpl.
  - constructor; [reflexivity | constructor].
  - inversion Hk; subst.
    destruct (String.eqb_spec k (url r)) as [e|_]; constructor; auto.
Qed.

Lemma keyed_insertDesktop (ds : list ImageRecord) :
  forall m, keyed m -> keyed (insertDesktop m ds).
Proof.
  unfold insertDesktop. induction ds as [|a ds IH]; intros m H; simpl;
    [assumption | apply IH, keyed_set, H].
Qed.

Lemma keyed_insertMobile (ms : list ImageRecord) :
  forall st, keyed (fst st) -> keyed (fst (insertMobile st ms)).
Proof.
  unfold insertMobile. induction ms as [|a ms IH]; intros st H; simpl;
    [assumption|].
  apply IH. destruct (JsMap.has (url a) (fst st)); [assumption|].
  simpl. now apply keyed_set.
Qed.

Lemma keyed_urls (m : JsMap.t ImageRecord) :
  keyed m -> map url (JsMap.values m) = JsMap.keys m.
Proof.
  intros [Hk _]. unfold JsMap.values, JsMap.keys. rewrite map_map.
  induction Hk as [|e m He _ IH]; simpl; [reflexivity | now rewrite He, IH].
Qed.

Lemma mergeViewports_urls_NoDup (desktop mobile : list ImageRecord) :
  NoDup (map url (fst (mergeViewports desktop mobile))).
Proof.
  unfold mergeViewports. simpl.
  assert (K : keyed (fst (insertMobile (insertDesktop JsMap.empty desktop, 0) mobile))).
  { apply keyed_insertMobile. simpl. apply keyed_insertDesktop.
    split; constructor. }
  rewrite keyed_urls by exact K. apply K.
Qed.

Lemma mergeViewports_closed_form (desktop mobile : list ImageRecord) :
  NoDup (map url desktop) ->
  NoDup (map url mobile) ->
  mergeViewports desktop mobile
    = ((desktop ++ mobileOnly desktop mobile)%list,
       Z.of_nat (length (mobileOnly desktop mobile))).
Proof.
  intros Hd Hm. unfold mergeViewports.
  rewrite (insertDesktop_fresh desktop JsMap.empty Hd) by reflexivity.
  simpl. rewrite (insertMobile_fresh mobile (entries desktop) 0 Hm). simpl.
  assert (Hf : filter (fun x => negb (JsMap.has (url x) (entries desktop))) mobile
               = mobileOnly desktop mobile).
  { unfold mobileOnly. apply filter_ext. intro x. now rewrite has_entries. }
  rewrite Hf, <- entries_app, values_entries. reflexivity.
Qed.

Lemma mobileOnly_not_desktop (desktop mobile : list ImageRecord) (r : ImageRecord) :
  In r (mobileOnly desktop mobile) -> ~ In (url r) (map url desktop).
Proof.
  unfold mobileOnly. intros Hr Hu. apply filter_In in Hr. destruct Hr as [_ Hr].
  apply negb_true_iff in Hr.
  assert (Ht : existsb (String.eqb (url r)) (map url desktop) = true).
  { apply existsb_exists. exists (url r). split; [exact Hu | apply String.eqb_refl]. }
  congruence.
Qed.

(** C1.  For two record sets (no URL twice in either), the merged list is
    the desktop records in their order followed by the mobile records whose
    URL no desktop record has, and the counter is the number of those; no
    URL occurs twice in the result, and the record found under a URL that
    desktop has is the desktop record. *)
Theorem mergeViewports_desktop_first (desktop mobile : list ImageRecord) :
  NoDup (map url desktop) ->
  NoDup (map url mobile) ->
  mergeViewports desktop mobile
    = ((desktop ++ mobileOnly desktop mobile)%list,
       Z.of_nat (length (mobileOnly desktop mobile))) /\
  NoDup (map url (fst (mergeViewports desktop mobile))) /\
  (forall r, In r (fst (mergeViewports desktop mobile)) ->
             In (url r) (map url desktop) -> In r desktop).
Proof.
  intros Hd Hm. pose proof (mergeViewports_closed_form desktop mobile Hd Hm) as E.
  split; [exact E|]. split; [apply mergeViewports_urls_NoDup|].
  rewrite E. simpl. intros r Hr Hu. apply in_app_or in Hr.
  destruct Hr as [Hr|Hr]; [exact Hr|]. exfalso.
  now apply (mobileOnly_not_desktop desktop mobile r).
Qed.

(** The scenario of the spec as an instance: desktop {A, B} and mobile
    {B, C} give A, B, C with B as desktop saw it, and one new record. *)
Lemma mergeViewports_desktop_first_witness :
  NoDup (map url [recA; recB]) /\
  NoDup (map url [recB_mobile; recC]) /\
  mergeViewports [recA; recB] [recB_mobile; recC] = ([recA; recB; recC], 1).
Proof.
  assert (Hd : NoDup (map url [recA; recB])).
  { repeat constructor; simpl; intuition discriminate. }
  assert (Hm : NoDup (map url [recB_mobile; recC])).
  { repeat constructor; simpl; intuition discriminate. }
  split; [exact Hd|]. split; [exact Hm|].
  exact (proj1 (mergeViewports_desktop_first [recA; recB] [recB_mobile; recC] Hd Hm)).
Defined.

End Merge.

(** ** Collecting the records of one page
       ([extractImagesFromPage], part_000 lines 51-169)

    The four loops over the document apply one step to every source they
    find: resolve it, and add a record under the resolved URL unless the
    URL is empty or already there.  The walk over the DOM itself is not
    modelled: its result is the list of candidates in document order. *)

Module Extract.

Import Resolve.

(** A source string found on an element, and what the element gives for
    the record; a dimension is [None] where the source falls back to the
    'Natural' marker and else the number as JavaScript prints it. *)
Record Candidate : Type := {
  src : string;
  dimWidth : option string;
  dimHeight : option string;
  altText : string;
  kind : string
}.

(** A value of [imageSet]. *)
Record RawRecord : Type := {
  rawUrl : string;
  rawWidth : option string;
  rawHeight : option string;
  rawAlt : string;
  rawType : string
}.

(** [if (fullUrl && !imageSet.has(fullUrl)) imageSet.set(fullUrl, {...})] *)
Definition addCandidate (pc : PageContext) (imageSet : JsMap.t RawRecord)
  (c : Candidate) : JsMap.t RawRecord :=
  let fullUrl := resolveUrl pc (src c) in
  if truthy fullUrl && negb (JsMap.has fullUrl imageSet) then
    JsMap.set fullUrl
      {| rawUrl := fullUrl; rawWidth := dimWidth c; rawHeight := dimHeight c;
         rawAlt := altText c; rawType := kind c |}
      imageSet
  else imageSet.

(** [d === 'Natural' ? 'Natural' : d + 'px'] *)
Definition px (d : option string) : string :=
  match d with
  | None => "Natural"
  | Some n => n ++ "px"
  end.

Definition finish (r : RawRecord) : Merge.ImageRecord :=
  {| Merge.url := rawUrl r; Merge.width := px (rawWidth r);
     Merge.height := px (rawHeight r); Merge.alt := rawAlt r;
     Merge.type := rawType r |}.

Definition extractImagesFromPage (pc : PageContext) (found : list Candidate)
  : list Merge.ImageRecord :=
  map finish (JsMap.values (fold_left (addCandidate pc) found JsMap.empty)).

(** *** The result is a record set *)

(** What every entry of [imageSet] satisfies. *)
Definition entryOk (pc : PageContext) (found : list Candidate)
  (e : string * RawRecord) : Prop :=
  fst e = rawUrl (snd e) /\ fst e <> "" /\
  exists c, In c found /\ fst e = resolveUrl pc (src c).

Lemma set_Forall (P : string * RawRecord -> Prop) (k : string) (v : RawRecord)
  (m : JsMap.t RawRecord) :
  JsMap.has k m = false -> Forall P m -> P (k, v) -> Forall P (JsMap.set k v m).
Proof.
  intros H Hm Hk. rewrite JsMap.set_absent by assumption.
  apply Forall_app. split; [assumption | now constructor].
Qed.

Lemma collect_invariant (pc : PageContext) (found : list Candidate) :
  forall (seen : list Candidate) (m : JsMap.t RawRecord),
    NoDup (JsMap.keys m) -> Forall (entryOk pc (seen ++ found)%list) m ->
    NoDup (JsMap.keys (fold_left (addCandidate pc) found m)) /\
    Forall (entryOk pc (seen ++ found)%list) (fold_left (addCandidate pc) found m).
Proof.
  induction found as [|c found IH]; intros seen m Hn Hf; simpl; [auto|].
  replace (seen ++ c :: found)%list with ((seen ++ [c]) ++ found)%list in *
    by now rewrite <- app_assoc.
  apply IH.
  - unfold addCandidate. destruct (_ && _); [|assumption].
    now apply JsMap.keys_set_NoDup.
  - unfold addCandidate.
    destruct (truthy (resolveUrl pc (src c))) eqn:Et; simpl; [|assumption].
    destruct (JsMap.has (resolveUrl pc (src c)) m) eqn:Eh; simpl; [assumption|].
    apply set_Forall; [assumption | assumption|].
    split; [reflexivity|]. split; [now apply truthy_nonempty|].
    exists c. split; [|reflexivity].
    apply in_or_app. left. apply in_or_app. right. now left.
Qed.

Lemma extract_urls (m : JsMap.t RawRecord) :
  Forall (fun e => fst e = rawUrl (snd e)) m ->
  map Merge.url (map finish (JsMap.values m)) = JsMap.keys m.
Proof.
  unfold JsMap.values, JsMap.keys. rewrite !map_map. simpl.
  induction 1 as [|e m He _ IH]; simpl; [reflexivity | now rewrite He, IH].
Qed.

(** No URL twice, no empty URL, and every URL is what [resolveUrl] made of
    a source found on the page. *)
Lemma extractImagesFromPage_record_set (pc : PageContext) (found : list Candidate) :
  NoDup (map Merge.url (extractImagesFromPage pc found)) /\
  (forall r, In r (extractImagesFromPage pc found) ->
     Merge.url r <> "" /\
     exists c, In c found /\ Merge.url r = resolveUrl pc (src c)).
Proof.
  destruct (collect_invariant pc found [] JsMap.empty) as [Hn Hf];
    [constructor | constructor |]. simpl in Hf.
  unfold extractImagesFromPage.
  set (m := fold_left (addCandidate pc) found JsMap.empty) in *.
  split.
  - rewrite extract_urls; [exact Hn|].
    eapply Forall_impl; [|exact Hf]. now intros e (H & _).
  - intros r Hr. apply in_map_iff in Hr. destruct Hr as (raw & <- & Hraw).
    apply in_map_iff in Hraw. destruct Hraw as (e & <- & He).
    rewrite Forall_forall in Hf. destruct (Hf e He) as (H1 & H2 & H3).
    simpl. rewrite <- H1. auto.
Qed.

(** X21.  The merge of two extraction results, whatever the pages held,
    is the desktop records followed by the mobile records with a new URL,
    and the counter is the number of those. *)
Lemma mergeViewports_of_extractions (pc pc' : PageContext)
  (desktopFound mobileFound : list Candidate) :
  let desktop := extractImagesFromPage pc desktopFound in
  let mobile := extractImagesFromPage pc' mobileFound in
  Merge.mergeViewports desktop mobile
    = ((desktop ++ Merge.mobileOnly desktop mobile)%list,
       Z.of_nat (length (Merge.mobileOnly desktop mobile))).
Proof.
  intros desktop mobile. apply Merge.mergeViewports_closed_form.
  - apply extractImagesFromPage_record_set.
  - apply extractImagesFromPage_record_set.
Qed.

(** The spec's srcset scenario after the split of the attribute: the two
    items become two records, resolved against the page. *)
Example srcset_two_records :
  map Merge.url
      (extractImagesFromPage galleryPage
         [ {| src := "a.jpg"; dimWidth := Some "640"; dimHeight := Some "480";
              altText := "No alt text"; kind := "img" |};
           {| src := "b.jpg"; dimWidth := Some "640"; dimHeight := Some "480";
              altText := "No alt text"; kind := "img" |} ])
    = ["https://example.com/gallery/a.jpg"; "https://example.com/gallery/b.jpg"].
Proof. reflexivity. Qed.

End Extract.

(** ** The regular expressions of the data-URI branch

    Both patterns of the source have the shape
    [^ literal ( class+ ) literal ( class+ ) $]: literals and greedy
    capture groups over a character class, anchored at both ends.  [exec]
    runs such a pattern the way a backtracking engine does: a group first
    takes as many characters as the class allows and gives them back one by
    one until the rest of the pattern matches. *)

Module Regex.

Inductive atom : Type :=
| Lit (s : string)
| Group (cls : ascii -> bool).

(** The literal [p] at the head of [s]: what follows it. *)
Fixpoint strip (p s : string) : option string :=
  match p with
  | EmptyString => Some s
  | String a p' =>
      match s with
      | EmptyString => None
      | String b s' => if Ascii.eqb a b then strip p' s' else None
      end
  end.

(** A greedy [class+] with [taken] already consumed, then the rest of the
    pattern [k]; the captured text is put in front of the captures of [k]. *)
Fixpoint plus (cls : ascii -> bool) (k : string -> option (list string))
  (taken s : string) : option (list string) :=
  match s with
  | EmptyString => None
  | String c s' =>
      if cls c then
        match plus cls k (taken ++ String c "") s' with
        | Some caps => Some caps
        | None =>
            match k s' with
            | Some caps => Some ((taken ++ String c "") :: caps)
            | None => None
            end
        end
      else None
  end.

(** [s.match(/^...$/)]: the captured groups, or [None] for [null]. *)
Fixpoint exec (re : list atom) (s : string) : option (list string) :=
  match re with
  | [] => match s with EmptyString => Some [] | String _ _ => None end
  | Lit p :: re' =>
      match strip p s with
      | Some rest => exec re' rest
      | None => None
      end
  | Group cls :: re' => plus cls (exec re') "" s
  end.

Fixpoint all (cls : ascii -> bool) (s : string) : bool :=
  match s with
  | EmptyString => true
  | String c s' => cls c && all cls s'
  end.

(** [[^x]] *)
Definition notChar (x : ascii) : ascii -> bool := fun c => negb (Ascii.eqb c x).

(** [.] without the s flag: anything but a line terminator (of which
    line feed and carriage return are the ones below U+0100). *)
Definition dot : ascii -> bool :=
  fun c => negb (Ascii.eqb c "010"%char || Ascii.eqb c "013"%char).

(** What a pattern accepts, without reference to the search order. *)
Inductive matches : list atom -> string -> list string -> Prop :=
| m_end : matches [] "" []
| m_lit p re rest caps :
    matches re rest caps -> matches (Lit p :: re) (p ++ rest) caps
| m_group cls re g rest caps :
    g <> "" -> all cls g = true -> matches re rest caps ->
    matches (Group cls :: re) (g ++ rest) (g :: caps).

(** *** The engine against the declarative reading *)

Lemma strip_app (p s rest : string) : strip p s = Some rest <-> s = p ++ rest.
Proof.
  revert s. induction p as [|a p IH]; intro s; simpl.
  - split; [intro H; now inversion H | now intros ->].
  - destruct s as [|b s]; [split; discriminate|].
    destruct (Ascii.eqb_spec a b) as [->|n].
    + rewrite IH. split; [now intros -> | intro H; now inversion H].
    + split; [discriminate | intro H; inversion H; congruence].
Qed.

Lemma all_app (cls : ascii -> bool) (a b : string) :
  all cls (a ++ b) = all cls a && all cls b.
Proof.
  induction a as [|c a IH]; simpl; [reflexivity|].
  now rewrite IH, andb_assoc.
Qed.

Lemma plus_sound (cls : ascii -> bool) (k : string -> option (list string))
  (s : string) :
  forall taken caps, plus cls k taken s = Some caps ->
  exists g rest cs,
    s = g ++ rest /\ g <> "" /\ all cls g = true /\
    k rest = Some cs /\ caps = (taken ++ g) :: cs.
Proof.
  induction s as [|c s IH]; intros taken caps H; simpl in H; [discriminate|].
  destruct (cls c) eqn:Ec; [|discriminate].
  destruct (plus cls k (taken ++ String c "") s) as [caps'|] eqn:Ep.
  - inversion H; subst caps'. clear H.
    destruct (IH _ _ Ep) as (g & rest & cs & -> & _ & Hall & Hk & ->).
    exists (String c g), rest, cs. simpl. rewrite Ec, Hall.
    repeat split; [discriminate | assumption|].
    now rewrite append_assoc.
  - destruct (k s) as [cs|] eqn:Ek; [|discriminate].
    inversion H; subst caps. clear H.
    exists (String c ""), s, cs. simpl. rewrite Ec.
    repeat split; [discriminate | assumption].
Qed.

Lemma plus_complete (cls : ascii -> bool) (k : string -> option (list string))
  (g : string) :
  forall taken rest,
    g <> "" -> all cls g = true -> k rest <> None ->
    plus cls k taken (g ++ rest) <> None.
Proof.
  induction g as [|c g IH]; intros taken rest Hne Hall Hk; [contradiction|].
  simpl in *. apply andb_true_iff in Hall. destruct Hall as [Hc Hg].
  rewrite Hc. destruct g as [|d g].
  - simpl. destruct (plus cls k (taken ++ String c "") rest); [discriminate|].
    destruct (k rest); [discriminate | contradiction].
  - specialize (IH (taken ++ String c "") rest).
    destruct (plus cls k (taken ++ String c "") (String d g ++ rest));
      [discriminate|].
    exfalso. apply IH; [discriminate | assumption | assumption | reflexivity].
Qed.

(** Whatever [exec] returns is a match. *)
Lemma exec_sound (re : list atom) :
  forall s caps, exec re s = Some caps -> matches re s caps.
Proof.
  induction re as [|[p|cls] re IH]; intros s caps H; simpl in H.
  - destruct s; [|discriminate]. inversion H. constructor.
  - destruct (strip p s) as [rest|] eqn:E; [|discriminate].
    apply strip_app in E. subst s. constructor. now apply IH.
  - destruct (plus_sound _ _ _ _ _ H) as (g & rest & cs & -> & Hne & Hall & Hk & ->).
    simpl. constructor; auto.
Qed.

(** Whenever the pattern has a match, [exec] finds one. *)
Lemma exec_complete (re : list atom) :
  forall s caps, matches re s caps -> exec re s <> None.
Proof.
  intros s caps H. induction H as [|p re rest caps H IH|cls re g rest caps Hne Hall H IH];
    simpl.
  - discriminate.
  - assert (E : strip p (p ++ rest) = Some rest) by now apply strip_app.
    now rewrite E.
  - now apply plus_complete.
Qed.

End Regex.

(** ** Sizes as JavaScript numbers, and their display
       (part_000 lines 329-340) *)

Module Size.

(** The numbers that reach [sizeInBytes]: integers ([Math.ceil] of a
    length, a string length, [parseInt] of a header, a byte length), or
    NaN when [parseInt] finds no digit.  A number is a double: lengths and
    byte counts are far below 2^53, where every integer is a double, and
    [parseInt] rounds what it reads to the nearest double. *)
Inductive jsnum : Type :=
| NaN
| Num (z : Z).

(** [n === 0] *)
Definition isZero (n : jsnum) : bool :=
  match n with
  | Num z => z =? 0
  | NaN => false
  end.

(** [n > bound] *)
Definition gt (n : jsnum) (bound : Z) : bool :=
  match n with
  | Num z => z >? bound
  | NaN => false
  end.

(** [Math.ceil((len * 3) / 4)] for an integer [len] *)
Definition ceilThreeQuarters (len : Z) : Z := (len * 3 + 3) / 4.

Definition decimal (z : Z) : string :=
  NilZero.string_of_uint (N.to_uint (Z.to_N z)).

(** [(n / den).toFixed(2)] for a power of two [den]: the quotient is an
    exact double, and toFixed picks the integer count of hundredths
    nearest to it, the larger one at a tie, after setting a minus sign
    aside. *)
Definition toFixed2 (n : jsnum) (den : Z) : string :=
  match n with
  | NaN => "NaN"
  | Num z =>
      let hundredths := (200 * Z.abs z + den) / (2 * den) in
      let whole := decimal (hundredths / 100) in
      let cents := hundredths mod 100 in
      (if z <? 0 then "-" else "")
        ++ whole ++ "."
        ++ (if cents <? 10 then "0" else "") ++ decimal cents
  end.

(** The two fields the handler adds to a record, from [sizeInBytes]. *)
Definition sizeFields (sizeInBytes : jsnum) : string * jsnum :=
  if isZero sizeInBytes then ("Unknown", Num 0)
  else
    let sizeInKB := toFixed2 sizeInBytes 1024 in
    let sizeInMB := toFixed2 sizeInBytes (1024 * 1024) in
    (if gt sizeInBytes (1024 * 1024) then sizeInMB ++ " MB"
     else sizeInKB ++ " KB",
     sizeInBytes).

Definition fileSizeOf (sizeInBytes : jsnum) : string := fst (sizeFields sizeInBytes).

(** *** [parseInt(s)] without a radix *)

Definition isWhiteSpace (c : ascii) : bool :=
  let n := N_of_ascii c in
  ((9 <=? n) && (n <=? 13) || (n =? 32) || (n =? 160))%N.

Fixpoint trimStart (s : string) : string :=
  match s with
  | EmptyString => s
  | String c s' => if isWhiteSpace c then trimStart s' else s
  end.

Definition digitValue (radix : Z) (c : ascii) : option Z :=
  let n := Z.of_N (N_of_ascii c) in
  let v := if (48 <=? n) && (n <=? 57) then n - 48
           else if (97 <=? n) && (n <=? 122) then n - 87
           else if (65 <=? n) && (n <=? 90) then n - 55
           else radix in
  if v <? radix then Some v else None.

(** The longest prefix of digits, read in [radix]; [None] without one. *)
Fixpoint readDigits (radix : Z) (acc : option Z) (s : string) : option Z :=
  match s with
  | EmptyString => acc
  | String c s' =>
      match digitValue radix c with
      | Some d =>
          readDigits radix
            (Some (radix * (match acc with Some a => a | None => 0 end) + d)) s'
      | None => acc
      end
  end.

(** The double nearest to an integer read from digits, itself an integer:
    the value is kept when it has at most 53 significant bits, and rounded
    to 53 bits otherwise, a tie going to the even neighbour.  (A value of
    2^1024 or more, which no length header carries, would be Infinity and
    is outside [jsnum].) *)
Definition toDouble (v : Z) : Z :=
  let e := Z.log2 v - 52 in
  if e <=? 0 then v
  else
    let q := Z.shiftr v e in
    let r := v - Z.shiftl q e in
    let half := Z.shiftl 1 (e - 1) in
    let q' := if (r <? half) || ((r =? half) && Z.even q) then q else q + 1 in
    Z.shiftl q' e.

Definition parseInt (s : string) : jsnum :=
  let s1 := trimStart s in
  let '(sign, s2) :=
    match s1 with
    | String "-" r => (-1, r)
    | String "+" r => (1, r)
    | _ => (1, s1)
    end in
  let '(radix, s3) :=
    match s2 with
    | String "0" (String "x" r) => (16, r)
    | String "0" (String "X" r) => (16, r)
    | _ => (10, s2)
    end in
  match readDigits radix None s3 with
  | Some v => Num (sign * toDouble v)
  | None => NaN
  end.

(** Two digits after the point. *)
Definition isDigit (c : ascii) : bool :=
  let n := N_of_ascii c in ((48 <=? n) && (n <=? 57))%N.

Definition twoDigits (cents : Z) : string :=
  (if cents <? 10 then "0" else "") ++ decimal cents.

Example toFixed2_one_mebibyte_in_KB : toFixed2 (Num 1048576) 1024 = "1024.00".
Proof. reflexivity. Qed.

Example toFixed2_rounds_half_up : toFixed2 (Num 5243) 1048576 = "0.01".
Proof. reflexivity. Qed.

Example toFixed2_1536 : toFixed2 (Num 1536) 1024 = "1.50".
Proof. reflexivity. Qed.

Example parseInt_digits : parseInt "48213" = Num 48213.
Proof. reflexivity. Qed.

Example parseInt_no_digit : parseInt "chunked" = NaN.
Proof. reflexivity. Qed.

Example parseInt_zero : parseInt "0" = Num 0.
Proof. reflexivity. Qed.

Example parseInt_above_2_53 : parseInt "9007199254740993" = Num 9007199254740992.
Proof. reflexivity. Qed.

Example parseInt_tie_to_even : parseInt "9007199254740995" = Num 9007199254740996.
Proof. reflexivity. Qed.

Example parseInt_2_64 :
  parseInt "18446744073709551615" = Num 18446744073709551616.
Proof. reflexivity. Qed.

(** Below 2^53 every integer is a double. *)
Lemma toDouble_exact (v : Z) : v < 9007199254740992 -> toDouble v = v.
Proof.
  intro H. unfold toDouble.
  assert (L : Z.log2 v < 53).
  { destruct (Z.le_gt_cases v 0) as [Hv|Hv].
    - rewrite Z.log2_nonpos by assumption. lia.
    - apply Z.log2_lt_pow2; [assumption|]. exact H. }
  destruct (Z.leb_spec (Z.log2 v - 52) 0); [reflexivity | lia].
Qed.

(** *** Facts about the display *)

Lemma ceilThreeQuarters_is_ceiling (len : Z) :
  3 * len <= 4 * ceilThreeQuarters len < 3 * len + 4.
Proof.
  unfold ceilThreeQuarters.
  pose proof (Z.div_mod (len * 3 + 3) 4 ltac:(lia)) as D.
  pose proof (Z.mod_pos_bound (len * 3 + 3) 4 ltac:(lia)) as B.
  lia.
Qed.

Lemma twoDigits_shape (cents : Z) :
  0 <= cents < 100 ->
  exists d1 d2, twoDigits cents = String d1 (String d2 "")
                /\ isDigit d1 = true /\ isDigit d2 = true.
Proof.
  intro H.
  assert (E : exists n, (n < 100)%nat /\ cents = Z.of_nat n).
  { exists (Z.to_nat cents). split; lia. }
  destruct E as (n & Hn & ->). clear H.
  do 100 (destruct n as [|n];
          [do 2 eexists; split; [reflexivity | split; reflexivity]|]).
  lia.
Qed.

(** [toFixed2] of a non-negative count: an integer part, a point, and
    exactly two digits. *)
Lemma toFixed2_two_decimals (b den : Z) :
  0 <= b -> 0 < den ->
  exists whole d1 d2,
    toFixed2 (Num b) den = whole ++ "." ++ String d1 (String d2 "")
    /\ isDigit d1 = true /\ isDigit d2 = true.
Proof.
  intros Hb Hd. unfold toFixed2.
  assert (E : (b <? 0) = false) by lia. rewrite E. simpl append at 1.
  set (h := (200 * Z.abs b + den) / (2 * den)).
  destruct (twoDigits_shape (h mod 100)) as (d1 & d2 & E2 & H1 & H2).
  { apply Z.mod_pos_bound. lia. }
  exists (decimal (h / 100)), d1, d2. unfold twoDigits in E2.
  rewrite <- E2. repeat split; assumption.
Qed.

Lemma unit_suffix_not_Unknown (x unit : string) :
  unit = " MB" \/ unit = " KB" -> x ++ unit <> "Unknown".
Proof.
  intros [->| ->];
    destruct x as [|c1 [|c2 [|c3 [|c4 [|c5 [|c6 [|c7 [|c8 x]]]]]]]];
    simpl; congruence.
Qed.

Lemma isZero_Num0 (n : jsnum) : isZero n = true <-> n = Num 0.
Proof.
  destruct n as [|z]; simpl; [split; discriminate|].
  rewrite Z.eqb_eq. split; [now intros -> | intro H; now inversion H].
Qed.

(** The display is "Unknown" exactly when the reported byte count is 0. *)
Lemma sizeFields_Unknown_iff (n : jsnum) :
  fst (sizeFields n) = "Unknown" <-> snd (sizeFields n) = Num 0.
Proof.
  unfold sizeFields. destruct (isZero n) eqn:E; simpl; [tauto|].
  split; intro H.
  - exfalso. revert H.
    destruct (gt n _); apply unit_suffix_not_Unknown; auto.
  - apply isZero_Num0 in H. congruence.
Qed.

(** C4, as the code has it.  A count of 0 is displayed as Unknown, a count
    strictly above 1,048,576 in MB, and a count from 1 to 1,048,576
    inclusive in KB, each with two decimals. *)
Theorem sizeFields_thresholds (b : Z) :
  0 <= b ->
  (b = 0 -> fileSizeOf (Num b) = "Unknown") /\
  (1048576 < b ->
     fileSizeOf (Num b) = toFixed2 (Num b) 1048576 ++ " MB") /\
  (0 < b <= 1048576 ->
     fileSizeOf (Num b) = toFixed2 (Num b) 1024 ++ " KB") /\
  (forall den, 0 < den ->
     exists whole d1 d2,
       toFixed2 (Num b) den = whole ++ "." ++ String d1 (String d2 "")
       /\ isDigit d1 = true /\ isDigit d2 = true).
Proof.
  intro Hb. unfold fileSizeOf, sizeFields, isZero, gt.
  repeat split.
  - intros ->. reflexivity.
  - intro H. replace (b =? 0) with false by lia.
    replace (b >? 1024 * 1024) with true by lia. reflexivity.
  - intro H. replace (b =? 0) with false by lia.
    replace (b >? 1024 * 1024) with false by lia. reflexivity.
  - intros den Hd. now apply toFixed2_two_decimals.
Qed.

Lemma sizeFields_thresholds_witness :
  0 <= 2621440 /\ 1048576 < 2621440 /\ fileSizeOf (Num 2621440) = "2.50 MB".
Proof.
  split; [lia|]. split; [lia|].
  exact (proj1 (proj2 (sizeFields_thresholds 2621440 ltac:(lia))) ltac:(lia)).
Defined.

(** C4 as stated fails at the threshold itself: the comparison is strict,
    so exactly 1,048,576 bytes are displayed in KB, not as the 1.00 MB the
    claim asks for. *)
Lemma sizeFields_one_mebibyte_in_KB :
  fileSizeOf (Num 1048576) = "1024.00 KB" /\
  toFixed2 (Num 1048576) 1048576 ++ " MB" = "1.00 MB" /\
  fileSizeOf (Num 1048576) <> toFixed2 (Num 1048576) 1048576 ++ " MB".
Proof. repeat split. discriminate. Qed.

End Size.

(** ** The size probe of one image and the fan-out
       (part_000 lines 267-346) *)

Module Probe.

Import Size.

(** How an awaited call ends. *)
Inductive outcome (A : Type) : Type :=
| Returned (a : A)
| Thrown (message : string).

Arguments Returned {A} a.
Arguments Thrown {A} message.

(** What the handler reads off an axios response. *)
Record HttpResponse : Type := {
  status : Z;
  contentLength : option string;   (* response.headers['content-length'] *)
  byteLength : Z                   (* response.data.byteLength *)
}.

(** The world outside the handler: what the transport delivers for a HEAD
    and for a GET of a URL (a response, or a network error or timeout), and
    [decodeURIComponent] ([None] when it throws URIError). *)
Record Platform : Type := {
  wireHead : string -> outcome HttpResponse;
  wireGet : string -> outcome HttpResponse;
  decodeURIComponent : string -> option string
}.

(** [validateStatus: (status) => status < 500] *)
Definition validateStatus (st : Z) : bool := st <? 500.

(** An axios call with that option: a response whose status fails the
    validation rejects the promise. *)
Definition axiosRequest (wire : outcome HttpResponse) : outcome HttpResponse :=
  match wire with
  | Returned response =>
      if validateStatus (status response) then Returned response
      else Thrown "Request failed with status code"
  | Thrown e => Thrown e
  end.

(** [/^data:([^;]+);base64,(.+)$/] and [/^data:([^,]+),(.+)$/] *)
Definition base64Pattern : list Regex.atom :=
  [Regex.Lit "data:"; Regex.Group (Regex.notChar ";");
   Regex.Lit ";base64,"; Regex.Group Regex.dot].

Definition dataPattern : list Regex.atom :=
  [Regex.Lit "data:"; Regex.Group (Regex.notChar ",");
   Regex.Lit ","; Regex.Group Regex.dot].

(** [match[2]] *)
Definition group2 (caps : list string) : string := nth 1 caps "".

(** Which assignment gave [sizeInBytes] its value, if any did: the variable
    starts at 0 and keeps it on the paths that assign nothing. *)
Inductive Origin : Type := ByBase64 | ByLiteral | ByHead | ByGet.

Inductive Reading : Type :=
| Assigned (by_ : Origin) (n : jsnum)
| Untouched.

Definition sizeInBytesOf (r : Reading) : jsnum :=
  match r with
  | Assigned _ n => n
  | Untouched => Num 0
  end.

Definition dataUriSize (pf : Platform) (u : string) : outcome Reading :=
  match Regex.exec base64Pattern u with
  | Some base64Match =>
      let base64Data := group2 base64Match in
      Returned (Assigned ByBase64 (Num (ceilThreeQuarters (jsLength base64Data))))
  | None =>
      match Regex.exec dataPattern u with
      | Some dataMatch =>
          match decodeURIComponent pf (group2 dataMatch) with
          | Some decoded => Returned (Assigned ByLiteral (Num (jsLength decoded)))
          | None => Thrown "URI malformed"
          end
      | None => Returned Untouched
      end
  end.

(** The inner try block: the HEAD request and its test. *)
Definition headSize (pf : Platform) (u : string) : outcome jsnum :=
  match axiosRequest (wireHead pf u) with
  | Returned response =>
      match contentLength response with
      | Some header =>
          if (status response =? 200) && truthy header
          then Returned (parseInt header)
          else Thrown "HEAD returned status"
      | None => Thrown "HEAD returned status"
      end
  | Thrown e => Thrown e
  end.

(** The inner catch block: the GET request. *)
Definition getSize (pf : Platform) (u : string) : outcome Reading :=
  match axiosRequest (wireGet pf u) with
  | Returned response =>
      if status response =? 200
      then Returned (Assigned ByGet (Num (byteLength response)))
      else Returned Untouched
  | Thrown e => Thrown e
  end.

Definition networkSize (pf : Platform) (u : string) : outcome Reading :=
  match headSize pf u with
  | Returned n => Returned (Assigned ByHead n)
  | Thrown _ => getSize pf u
  end.

(** The body of the outer try up to the test of [sizeInBytes]. *)
Definition measure (pf : Platform) (img : Merge.ImageRecord) : outcome Reading :=
  if startsWith (Merge.url img) "data:" then dataUriSize pf (Merge.url img)
  else networkSize pf (Merge.url img).

(** A record of the response: the five fields of the image and the two
    added ones. *)
Record SizedImageRecord : Type := {
  url : string;
  width : string;
  height : string;
  alt : string;
  type : string;
  fileSize : string;
  fileSizeBytes : jsnum
}.

(** [{ ...img, fileSize: ..., fileSizeBytes: ... }] *)
Definition withSize (img : Merge.ImageRecord) (fields : string * jsnum)
  : SizedImageRecord :=
  {| url := Merge.url img;
     width := Merge.width img;
     height := Merge.height img;
     alt := Merge.alt img;
     type := Merge.type img;
     fileSize := fst fields;
     fileSizeBytes := snd fields |}.

(** The async callback given to [images.map]: its outer catch returns a
    record too, so the promise it makes is always fulfilled. *)
Definition probe (pf : Platform) (img : Merge.ImageRecord)
  : outcome SizedImageRecord :=
  match measure pf img with
  | Returned reading => Returned (withSize img (sizeFields (sizeInBytesOf reading)))
  | Thrown _ => Returned (withSize img ("Unknown", Num 0))
  end.

(** [Promise.all]: the values in order, or the first rejection. *)
Fixpoint promiseAll {A : Type} (ps : list (outcome A)) : outcome (list A) :=
  match ps with
  | [] => Returned []
  | Thrown e :: _ => Thrown e
  | Returned a :: ps' =>
      match promiseAll ps' with
      | Returned l => Returned (a :: l)
      | Thrown e => Thrown e
      end
  end.

Definition imagesWithSizes (pf : Platform) (images : list Merge.ImageRecord)
  : outcome (list SizedImageRecord) :=
  promiseAll (map (probe pf) images).

(** *** Platforms and images for the examples *)

(** Percent-decoding for the examples: every escape below %80 is decoded
    to its character, and a percent sign without two hexadecimal digits is
    malformed, as in [decodeURIComponent]; escapes from %80 on (UTF-8
    sequences) are outside this table and also give [None]. *)
Fixpoint decodeAscii (s : string) : option string :=
  match s with
  | EmptyString => Some EmptyString
  | String c rest =>
      if Ascii.eqb c "%" then
        match rest with
        | String h (String l rest') =>
            match digitValue 16 h, digitValue 16 l with
            | Some a, Some b =>
                if 16 * a + b <? 128 then
                  option_map (String (ascii_of_N (Z.to_N (16 * a + b))))
                             (decodeAscii rest')
                else None
            | _, _ => None
            end
        | _ => None
        end
      else option_map (String c) (decodeAscii rest)
  end.

Definition imageAt (u : string) : Merge.ImageRecord :=
  {| Merge.url := u; Merge.width := "640px"; Merge.height := "480px";
     Merge.alt := "No alt text"; Merge.type := "img" |}.

(** A server that answers every HEAD with 404 and whose GET times out. *)
Definition deadHost : Platform := {|
  wireHead := fun _ => Returned {| status := 404; contentLength := None; byteLength := 0 |};
  wireGet := fun _ => Thrown "timeout of 15000ms exceeded";
  decodeURIComponent := decodeAscii
|}.

(** A server that answers HEAD with 200 and a content-length of 48213. *)
Definition goodHost : Platform := {|
  wireHead := fun _ =>
    Returned {| status := 200; contentLength := Some "48213"; byteLength := 0 |};
  wireGet := fun _ =>
    Returned {| status := 200; contentLength := Some "48213"; byteLength := 48213 |};
  decodeURIComponent := decodeAscii
|}.

(** A server that answers HEAD with 200 and a content-length of 0, as
    servers that do not compute the body for HEAD do. *)
Definition zeroLengthHost : Platform := {|
  wireHead := fun _ =>
    Returned {| status := 200; contentLength := Some "0"; byteLength := 0 |};
  wireGet := fun _ =>
    Returned {| status := 200; contentLength := Some "48213"; byteLength := 48213 |};
  decodeURIComponent := decodeAscii
|}.

(** *** What the two patterns accept *)

Lemma append_inv_head (p a b : string) : p ++ a = p ++ b -> a = b.
Proof.
  induction p as [|c p IH]; simpl; intro H; [exact H|].
  inversion H. now apply IH.
Qed.

(** Two splits of one string at a separator that neither left part holds
    are the same split. *)
Lemma split_at_first (x : ascii) (m : string) :
  forall m' r r',
    Regex.all (Regex.notChar x) m = true ->
    Regex.all (Regex.notChar x) m' = true ->
    m ++ String x r = m' ++ String x r' -> m = m' /\ r = r'.
Proof.
  unfold Regex.notChar.
  induction m as [|c m IH]; intros m' r r' Hm Hm' E; destruct m' as [|c' m'];
    simpl in *.
  - inversion E. auto.
  - inversion E; subst c'. rewrite Ascii.eqb_refl in Hm'. discriminate.
  - inversion E; subst c. rewrite Ascii.eqb_refl in Hm. discriminate.
  - apply andb_true_iff in Hm. apply andb_true_iff in Hm'.
    inversion E; subst c'.
    destruct (IH m' r r') as [-> ->]; tauto.
Qed.

(** A pattern [^data:(class+) sep (.+)$] whose class excludes the first
    character of the separator. *)
Definition dataShape (x : ascii) (sep u m payload : string) : Prop :=
  u = "data:" ++ m ++ String x sep ++ payload /\
  m <> "" /\ Regex.all (Regex.notChar x) m = true /\
  payload <> "" /\ Regex.all Regex.dot payload = true.

Lemma exec_dataShape (x : ascii) (sep u : string) (caps : list string) :
  Regex.exec [Regex.Lit "data:"; Regex.Group (Regex.notChar x);
              Regex.Lit (String x sep); Regex.Group Regex.dot] u = Some caps ->
  exists m payload, caps = [m; payload] /\ dataShape x sep u m payload.
Proof.
  intro H. apply Regex.exec_sound in H.
  inversion H as [|p1 re1 rest1 caps1 H1|]; subst. clear H.
  inversion H1 as [| |cls2 re2 m rest2 caps2 Hm1 Hm2 H2]; subst. clear H1.
  inversion H2 as [|p3 re3 rest3 caps3 H3|]; subst. clear H2.
  inversion H3 as [| |cls4 re4 payload rest4 caps4 Hp1 Hp2 H4]; subst. clear H3.
  inversion H4; subst. clear H4.
  exists m, payload. split; [reflexivity|].
  unfold dataShape. rewrite append_nil_r. repeat split; assumption.
Qed.

Lemma dataShape_exec (x : ascii) (sep u m payload : string) :
  dataShape x sep u m payload ->
  Regex.exec [Regex.Lit "data:"; Regex.Group (Regex.notChar x);
              Regex.Lit (String x sep); Regex.Group Regex.dot] u
    = Some [m; payload].
Proof.
  intros (Eu & Hm1 & Hm2 & Hp1 & Hp2).
  match goal with |- Regex.exec ?re u = _ =>
    assert (M : Regex.matches re u [m; payload]) end.
  { subst u. constructor.
    constructor; [assumption | assumption |].
    constructor. rewrite <- (append_nil_r payload) at 1.
    constructor; [assumption | assumption | constructor]. }
  apply Regex.exec_complete in M.
  match goal with |- ?e = _ => destruct e as [caps|] eqn:E end;
    [|contradiction].
  destruct (exec_dataShape _ _ _ _ E) as (m' & p' & -> & Eu' & Hm1' & Hm2' & _).
  rewrite Eu in Eu'. apply append_inv_head in Eu'.
  simpl in Eu'.
  destruct (split_at_first x m m' _ _ Hm2 Hm2' Eu') as [-> Er].
  apply append_inv_head in Er. now subst p'.
Qed.

Lemma snd_sizeFields (n : jsnum) : snd (sizeFields n) = n.
Proof.
  unfold sizeFields. destruct (isZero n) eqn:E; [|reflexivity].
  apply isZero_Num0 in E. now subst n.
Qed.

(** The byte count of the record is the value [sizeInBytes] had. *)
Lemma probe_measured (pf : Platform) (img : Merge.ImageRecord) (r : Reading) :
  measure pf img = Returned r ->
  probe pf img = Returned (withSize img (sizeFields (sizeInBytesOf r)))
  /\ fileSizeBytes (withSize img (sizeFields (sizeInBytesOf r))) = sizeInBytesOf r.
Proof.
  intro H. unfold probe. rewrite H. split; [reflexivity|].
  simpl. apply snd_sizeFields.
Qed.

Lemma probe_total (pf : Platform) (img : Merge.ImageRecord) :
  exists s, probe pf img = Returned s.
Proof. unfold probe. destruct (measure pf img); eauto. Qed.

Lemma probe_failure (pf : Platform) (img : Merge.ImageRecord) (e : string) :
  measure pf img = Thrown e ->
  probe pf img = Returned (withSize img ("Unknown", Num 0)).
Proof. unfold probe. now intros ->. Qed.

(** A literal payload that [decodeURIComponent] rejects: the URIError is
    caught by the outer catch, and the record is Unknown with 0 bytes. *)
Lemma dataUri_malformed (pf : Platform) (img : Merge.ImageRecord)
  (m payload : string) :
  startsWith (Merge.url img) "data:" = true ->
  Regex.exec base64Pattern (Merge.url img) = None ->
  dataShape "," "" (Merge.url img) m payload ->
  decodeURIComponent pf payload = None ->
  probe pf img = Returned (withSize img ("Unknown", Num 0)).
Proof.
  intros Hd Hn Hs Hdec. apply dataShape_exec in Hs.
  apply (probe_failure pf img "URI malformed").
  unfold measure, dataUriSize. rewrite Hd, Hn. unfold dataPattern.
  rewrite Hs. unfold group2. cbn [nth]. now rewrite Hdec.
Qed.

(** C5, as the code has it.  Every data: URI is in one of three cases:
    the base64 pattern matches; it does not and the literal pattern
    matches; neither matches.  The byte count is the ceiling of three
    quarters of the payload length in the first case, the length of the
    decoded payload in the second when the payload decodes, and 0 in the
    third; a literal payload that [decodeURIComponent] rejects gives 0 and
    Unknown as well, although the literal pattern matched. *)
Theorem dataUri_size (pf : Platform) (img : Merge.ImageRecord) :
  startsWith (Merge.url img) "data:" = true ->
  ((exists m payload, dataShape ";" "base64," (Merge.url img) m payload) \/
   (Regex.exec base64Pattern (Merge.url img) = None /\
    exists m payload, dataShape "," "" (Merge.url img) m payload) \/
   (Regex.exec base64Pattern (Merge.url img) = None /\
    Regex.exec dataPattern (Merge.url img) = None)) /\
  (forall m payload,
     dataShape ";" "base64," (Merge.url img) m payload ->
     exists s, probe pf img = Returned s /\
       fileSizeBytes s = Num (ceilThreeQuarters (jsLength payload)) /\
       3 * jsLength payload <= 4 * ceilThreeQuarters (jsLength payload)
         < 3 * jsLength payload + 4) /\
  (forall m payload decoded,
     Regex.exec base64Pattern (Merge.url img) = None ->
     dataShape "," "" (Merge.url img) m payload ->
     decodeURIComponent pf payload = Some decoded ->
     exists s, probe pf img = Returned s /\
       fileSizeBytes s = Num (jsLength decoded)) /\
  (forall m payload,
     Regex.exec base64Pattern (Merge.url img) = None ->
     dataShape "," "" (Merge.url img) m payload ->
     decodeURIComponent pf payload = None ->
     exists s, probe pf img = Returned s /\
       fileSizeBytes s = Num 0 /\ fileSize s = "Unknown") /\
  (Regex.exec base64Pattern (Merge.url img) = None ->
   Regex.exec dataPattern (Merge.url img) = None ->
     exists s, probe pf img = Returned s /\ fileSizeBytes s = Num 0).
Proof.
  intro Hd. split; [|split; [|split; [|split]]].
  - destruct (Regex.exec base64Pattern (Merge.url img)) as [caps|] eqn:E1.
    { left. destruct (exec_dataShape ";" "base64," _ _ E1) as (m & payload & _ & Hs).
      eauto. }
    right. destruct (Regex.exec dataPattern (Merge.url img)) as [caps|] eqn:E2.
    + left. split; [reflexivity|].
      destruct (exec_dataShape "," "" _ _ E2) as (m & payload & _ & Hs). eauto.
    + right. split; reflexivity.
  - intros m payload Hs. apply dataShape_exec in Hs.
    destruct (probe_measured pf img
                (Assigned ByBase64 (Num (ceilThreeQuarters (jsLength payload)))))
      as [Hp Hb].
    { unfold measure, dataUriSize. rewrite Hd. unfold base64Pattern.
      now rewrite Hs. }
    eexists. split; [exact Hp|]. split; [exact Hb|].
    apply ceilThreeQuarters_is_ceiling.
  - intros m payload decoded Hn Hs Hdec. apply dataShape_exec in Hs.
    destruct (probe_measured pf img (Assigned ByLiteral (Num (jsLength decoded))))
      as [Hp Hb].
    { unfold measure, dataUriSize. rewrite Hd, Hn. unfold dataPattern.
      rewrite Hs. unfold group2. cbn [nth]. now rewrite Hdec. }
    eexists. split; [exact Hp | exact Hb].
  - intros m payload Hn Hs Hdec.
    eexists. split; [exact (dataUri_malformed pf img m payload Hd Hn Hs Hdec)|].
    split; reflexivity.
  - intros Hn1 Hn2.
    destruct (probe_measured pf img Untouched) as [Hp Hb].
    { unfold measure, dataUriSize. now rewrite Hd, Hn1, Hn2. }
    eexists. split; [exact Hp | exact Hb].
Qed.

(** The spec's example: the payload QUJD, four characters, gives 3 bytes. *)
Lemma dataUri_size_witness :
  startsWith (Merge.url (imageAt "data:text/plain;base64,QUJD")) "data:" = true /\
  dataShape ";" "base64," "data:text/plain;base64,QUJD" "text/plain" "QUJD" /\
  exists s, probe goodHost (imageAt "data:text/plain;base64,QUJD") = Returned s /\
            fileSizeBytes s = Num 3.
Proof.
  assert (Hs : dataShape ";" "base64," "data:text/plain;base64,QUJD" "text/plain" "QUJD").
  { repeat split; discriminate. }
  split; [reflexivity|]. split; [exact Hs|].
  destruct (proj1 (proj2 (dataUri_size goodHost (imageAt "data:text/plain;base64,QUJD")
                     eq_refl)) "text/plain" "QUJD" Hs) as (s & Hp & Hb & _).
  exists s. split; [exact Hp | exact Hb].
Defined.

(** C5 as stated fails: in data:text/plain,100% the literal pattern
    matches with the payload 100%, which [decodeURIComponent] rejects (a
    percent sign without two hexadecimal digits); there is no decoded
    payload whose length could be the size, and the record carries 0 and
    Unknown, the value the claim keeps for a URI that matches no pattern. *)
Lemma dataUri_undecodable_payload :
  startsWith "data:text/plain,100%" "data:" = true /\
  Regex.exec base64Pattern "data:text/plain,100%" = None /\
  Regex.exec dataPattern "data:text/plain,100%" = Some ["text/plain"; "100%"] /\
  decodeURIComponent goodHost "100%" = None /\
  probe goodHost (imageAt "data:text/plain,100%")
    = Returned (withSize (imageAt "data:text/plain,100%") ("Unknown", Num 0)).
Proof. repeat split. Qed.

(** *** HEAD first, GET as the fallback *)

(** The HEAD answer can be used: it arrived, passed [validateStatus], has
    status 200 and a non-empty content-length header. *)
Definition headUsable (pf : Platform) (u : string) : Prop :=
  exists response header,
    wireHead pf u = Returned response /\ status response = 200 /\
    contentLength response = Some header /\ header <> "".

(** The GET gives no size: it failed, or its status is not 200. *)
Definition getGivesNothing (pf : Platform) (u : string) : Prop :=
  match wireGet pf u with
  | Returned response => status response <> 200
  | Thrown _ => True
  end.

Lemma headSize_Returned (pf : Platform) (u : string) (n : jsnum) :
  headSize pf u = Returned n <->
  exists response header,
    wireHead pf u = Returned response /\ status response = 200 /\
    contentLength response = Some header /\ header <> "" /\
    n = parseInt header.
Proof.
  unfold headSize, axiosRequest, validateStatus. split.
  - destruct (wireHead pf u) as [response|e]; [|discriminate].
    destruct (status response <? 500) eqn:Ev; [|discriminate].
    destruct (contentLength response) as [header|] eqn:Ec; [|discriminate].
    destruct (status response =? 200) eqn:Es; [|discriminate].
    destruct (truthy header) eqn:Et; [|discriminate].
    simpl. intro H. inversion H.
    exists response, header. repeat split; auto.
    + now apply Z.eqb_eq.
    + now apply truthy_nonempty.
  - intros (response & header & Hw & Hs & Hc & Hh & ->).
    rewrite Hw, Hs. simpl. rewrite Hc, Hs. simpl.
    apply truthy_nonempty in Hh. now rewrite Hh.
Qed.

Lemma getSize_nothing (pf : Platform) (u : string) :
  getGivesNothing pf u ->
  getSize pf u = Returned Untouched \/ exists e, getSize pf u = Thrown e.
Proof.
  unfold getGivesNothing, getSize, axiosRequest.
  destruct (wireGet pf u) as [response|e]; [|intros _; right; eauto].
  intro H. destruct (validateStatus (status response)); [|right; eauto].
  left. destruct (Z.eqb_spec (status response) 200); [contradiction|reflexivity].
Qed.

(** C6.  For a URL that is not a data: URI: the HEAD content-length is
    the size only if the HEAD status is 200 and the header is present, and
    then it is, read by [parseInt]; in every other case the size comes from
    the GET: the received byte length when the GET answers 200, and when
    the GET fails or answers another status the record is Unknown with 0
    bytes, a record all the same. *)
Theorem head_then_get (pf : Platform) (img : Merge.ImageRecord) :
  startsWith (Merge.url img) "data:" = false ->
  (forall n, measure pf img = Returned (Assigned ByHead n) ->
     exists response header,
       wireHead pf (Merge.url img) = Returned response /\
       status response = 200 /\ contentLength response = Some header /\
       n = parseInt header) /\
  (forall response header,
     wireHead pf (Merge.url img) = Returned response ->
     status response = 200 -> contentLength response = Some header ->
     header <> "" ->
     measure pf img = Returned (Assigned ByHead (parseInt header)) /\
     probe pf img = Returned (withSize img (sizeFields (parseInt header)))) /\
  (~ headUsable pf (Merge.url img) ->
   forall response,
     wireGet pf (Merge.url img) = Returned response -> status response = 200 ->
     measure pf img = Returned (Assigned ByGet (Num (byteLength response))) /\
     probe pf img
       = Returned (withSize img (sizeFields (Num (byteLength response))))) /\
  (~ headUsable pf (Merge.url img) -> getGivesNothing pf (Merge.url img) ->
     probe pf img = Returned (withSize img ("Unknown", Num 0))).
Proof.
  intro Hd.
  assert (Hfall : ~ headUsable pf (Merge.url img) ->
                  exists e, headSize pf (Merge.url img) = Thrown e).
  { intro Hn. destruct (headSize pf (Merge.url img)) as [n|e] eqn:E; [|eauto].
    exfalso. apply Hn. apply headSize_Returned in E.
    destruct E as (r & h & ? & ? & ? & ? & _). exists r, h. auto. }
  split; [|split; [|split]].
  - unfold measure, networkSize. rewrite Hd. intros n H.
    destruct (headSize pf (Merge.url img)) as [n'|e] eqn:E.
    + inversion H; subst n'. apply headSize_Returned in E.
      destruct E as (r & h & ? & ? & ? & _ & ?). exists r, h. auto.
    + unfold getSize in H. destruct (axiosRequest _) as [r|]; [|discriminate].
      destruct (status r =? 200); discriminate.
  - intros r h H1 H2 H3 H4.
    assert (E : headSize pf (Merge.url img) = Returned (parseInt h)).
    { apply headSize_Returned. exists r, h. auto. }
    assert (M : measure pf img = Returned (Assigned ByHead (parseInt h))).
    { unfold measure, networkSize. now rewrite Hd, E. }
    split; [exact M|]. unfold probe. now rewrite M.
  - intros Hn r Hw Hs. destruct (Hfall Hn) as [e E].
    assert (M : measure pf img = Returned (Assigned ByGet (Num (byteLength r)))).
    { unfold measure, networkSize. rewrite Hd, E.
      unfold getSize, axiosRequest, validateStatus. rewrite Hw, Hs.
      change (200 <? 500) with true. cbv iota. now rewrite Hs. }
    split; [exact M|]. unfold probe. now rewrite M.
  - intros Hn Hg. unfold probe, measure, networkSize. rewrite Hd.
    destruct (Hfall Hn) as [e E]. rewrite E.
    destruct (getSize_nothing _ _ Hg) as [G|[e' G]]; rewrite G; reflexivity.
Qed.

(** The spec's scenario: HEAD answers 404, the GET times out, and the
    record says Unknown and 0. *)
Lemma head_then_get_witness :
  startsWith (Merge.url (imageAt "https://example.com/a.png")) "data:" = false /\
  ~ headUsable deadHost "https://example.com/a.png" /\
  getGivesNothing deadHost "https://example.com/a.png" /\
  probe deadHost (imageAt "https://example.com/a.png")
    = Returned (withSize (imageAt "https://example.com/a.png") ("Unknown", Num 0)).
Proof.
  assert (Hn : ~ headUsable deadHost "https://example.com/a.png").
  { intros (r & h & H1 & H2 & _). inversion H1; subst r. discriminate H2. }
  assert (Hg : getGivesNothing deadHost "https://example.com/a.png") by exact I.
  split; [reflexivity|]. split; [exact Hn|]. split; [exact Hg|].
  exact (proj2 (proj2 (proj2
           (head_then_get deadHost (imageAt "https://example.com/a.png") eq_refl)))
           Hn Hg).
Defined.

(** *** The fan-out *)

(** A probe reads the platform at its own URL only. *)
Lemma probe_local (pf pf' : Platform) (img : Merge.ImageRecord) :
  wireHead pf' (Merge.url img) = wireHead pf (Merge.url img) ->
  wireGet pf' (Merge.url img) = wireGet pf (Merge.url img) ->
  (forall payload, decodeURIComponent pf' payload = decodeURIComponent pf payload) ->
  probe pf' img = probe pf img.
Proof.
  intros Hh Hg Hd. unfold probe, measure.
  destruct (startsWith (Merge.url img) "data:").
  - unfold dataUriSize.
    destruct (Regex.exec base64Pattern (Merge.url img)); [reflexivity|].
    destruct (Regex.exec dataPattern (Merge.url img)); [|reflexivity].
    now rewrite Hd.
  - unfold networkSize, headSize, getSize. now rewrite Hh, Hg.
Qed.

(** Every promise of the fan-out is fulfilled, so [Promise.all] is. *)
Lemma imagesWithSizes_fulfilled (pf : Platform) (images : list Merge.ImageRecord) :
  exists sized,
    imagesWithSizes pf images = Returned sized /\
    Forall2 (fun img s => probe pf img = Returned s) images sized.
Proof.
  unfold imagesWithSizes.
  induction images as [|img images (sized & E & F)]; simpl.
  - exists []. split; constructor.
  - destruct (probe_total pf img) as [s Hs]. rewrite Hs, E.
    exists (s :: sized). split; [reflexivity | now constructor].
Qed.

(** C7.  The fan-out over N records is fulfilled with N records, the i-th
    one made from the i-th image; a probe that throws turns its own record
    into Unknown with 0 bytes, and a record does not change when the
    platform answers differently for other URLs. *)
Theorem fanout_settles (pf : Platform) (images : list Merge.ImageRecord) :
  exists sized,
    imagesWithSizes pf images = Returned sized /\
    length sized = length images /\
    Forall2 (fun img s => probe pf img = Returned s) images sized /\
    Forall2 (fun img s =>
               (exists e, measure pf img = Thrown e) ->
               s = withSize img ("Unknown", Num 0)) images sized /\
    Forall2 (fun img s =>
               forall pf',
                 wireHead pf' (Merge.url img) = wireHead pf (Merge.url img) ->
                 wireGet pf' (Merge.url img) = wireGet pf (Merge.url img) ->
                 (forall payload,
                    decodeURIComponent pf' payload = decodeURIComponent pf payload) ->
                 probe pf' img = Returned s) images sized.
Proof.
  destruct (imagesWithSizes_fulfilled pf images) as (sized & E & F).
  exists sized. split; [exact E|].
  split; [symmetry; exact (Forall2_length F)|].
  split; [exact F|].
  split; (eapply Forall2_impl; [|exact F]); simpl; intros img s Hs.
  - intros [e He]. rewrite (probe_failure _ _ _ He) in Hs. now inversion Hs.
  - intros pf' Hh Hg Hd. now rewrite (probe_local pf pf' img Hh Hg Hd).
Qed.

(** *** The two added fields *)

(** Size determination gave nothing: the probe threw, or no assignment to
    [sizeInBytes] was reached. *)
Definition determinationFailed (pf : Platform) (img : Merge.ImageRecord) : Prop :=
  (exists e, measure pf img = Thrown e) \/ measure pf img = Returned Untouched.

(** The GET delivers an empty body with status 200. *)
Definition getGivesEmptyBody (pf : Platform) (u : string) : Prop :=
  exists response,
    wireGet pf u = Returned response /\ status response = 200 /\
    byteLength response = 0.

(** The usable HEAD answer carries a content-length that reads as 0. *)
Definition headSaysZero (pf : Platform) (u : string) : Prop :=
  exists response header,
    wireHead pf u = Returned response /\ status response = 200 /\
    contentLength response = Some header /\ header <> "" /\
    parseInt header = Num 0.

(** What the platform and the URL must be like for a byte count of 0, in
    terms of the URL's shape and the answers received.  For a data: URI:
    the base64 pattern does not match, and either the literal pattern does
    not match as well (unknowable), or it matches a payload that
    [decodeURIComponent] rejects (failed) or decodes to the empty string
    (a size of 0).  For another URL: the usable HEAD content-length reads
    as 0 (a size of 0), or the HEAD answer is not usable and the GET fails
    or answers another status than 200 (failed, unknowable) or delivers an
    empty body (a size of 0). *)
Definition zeroCauses (pf : Platform) (img : Merge.ImageRecord) : Prop :=
  if startsWith (Merge.url img) "data:" then
    (forall m payload, ~ dataShape ";" "base64," (Merge.url img) m payload) /\
    ((forall m payload, ~ dataShape "," "" (Merge.url img) m payload) \/
     exists m payload,
       dataShape "," "" (Merge.url img) m payload /\
       (decodeURIComponent pf payload = None \/
        decodeURIComponent pf payload = Some ""))
  else
    headSaysZero pf (Merge.url img) \/
    (~ headUsable pf (Merge.url img) /\
     (getGivesNothing pf (Merge.url img) \/ getGivesEmptyBody pf (Merge.url img))).

(** The value [sizeInBytes] has at the test, 0 standing for the paths the
    outer catch takes. *)
Definition sizeAtTest (m : outcome Reading) : jsnum :=
  match m with
  | Returned reading => sizeInBytesOf reading
  | Thrown _ => Num 0
  end.

Lemma probe_bytes (pf : Platform) (img : Merge.ImageRecord) (s : SizedImageRecord) :
  probe pf img = Returned s -> fileSizeBytes s = sizeAtTest (measure pf img).
Proof.
  unfold probe. destruct (measure pf img) as [r|e]; intro H; inversion H; simpl.
  - apply snd_sizeFields.
  - reflexivity.
Qed.

Lemma jsLength_zero (s : string) : jsLength s = 0 <-> s = "".
Proof.
  unfold jsLength. destruct s; simpl; split; intro H; try reflexivity;
    try discriminate; lia.
Qed.

Lemma jsLength_positive (s : string) : s <> "" -> 1 <= jsLength s.
Proof. unfold jsLength. destruct s; [contradiction | simpl; lia]. Qed.

(** A data: URI has 0 bytes exactly when the base64 pattern does not
    match and the literal pattern gives no decoded character. *)
Lemma dataUriSize_zero (pf : Platform) (u : string) :
  sizeAtTest (dataUriSize pf u) = Num 0 <->
  (forall m payload, ~ dataShape ";" "base64," u m payload) /\
  ((forall m payload, ~ dataShape "," "" u m payload) \/
   exists m payload,
     dataShape "," "" u m payload /\
     (decodeURIComponent pf payload = None \/
      decodeURIComponent pf payload = Some "")).
Proof.
  unfold dataUriSize.
  destruct (Regex.exec base64Pattern u) as [caps|] eqn:E1.
  { destruct (exec_dataShape ";" "base64," _ _ E1) as (m & payload & -> & Hs).
    unfold group2. cbn [nth sizeAtTest sizeInBytesOf]. split.
    - intro H. exfalso. inversion H as [H0].
      destruct Hs as (_ & _ & _ & Hp & _). apply jsLength_positive in Hp.
      pose proof (ceilThreeQuarters_is_ceiling (jsLength payload)). lia.
    - intros [Hno _]. exfalso. exact (Hno m payload Hs). }
  assert (Hno : forall m payload, ~ dataShape ";" "base64," u m payload).
  { intros m payload Hs. apply dataShape_exec in Hs.
    unfold base64Pattern in E1. congruence. }
  destruct (Regex.exec dataPattern u) as [caps|] eqn:E2.
  - destruct (exec_dataShape "," "" _ _ E2) as (m & payload & -> & Hs).
    unfold group2. cbn [nth].
    assert (U : forall m' payload', dataShape "," "" u m' payload' ->
                                    payload' = payload).
    { intros m' payload' Hs'. apply dataShape_exec in Hs'.
      unfold dataPattern in E2. rewrite E2 in Hs'. now inversion Hs'. }
    destruct (decodeURIComponent pf payload) as [decoded|] eqn:Ed;
      cbn [sizeAtTest sizeInBytesOf]; split.
    + intro H. inversion H as [H0]. apply jsLength_zero in H0. subst decoded.
      split; [exact Hno|]. right. exists m, payload. auto.
    + intros [_ [Hnone|(m' & payload' & Hs' & Hdec)]].
      * exfalso. exact (Hnone m payload Hs).
      * rewrite (U _ _ Hs') in Hdec. rewrite Ed in Hdec.
        destruct Hdec as [Hdec|Hdec]; [discriminate|].
        inversion Hdec. reflexivity.
    + intros _. split; [exact Hno|]. right. exists m, payload. auto.
    + reflexivity.
  - cbn [sizeAtTest sizeInBytesOf]. split; [|reflexivity].
    intros _. split; [exact Hno|]. left.
    intros m payload Hs. apply dataShape_exec in Hs.
    unfold dataPattern in E2. congruence.
Qed.

(** Another URL has 0 bytes exactly when the usable HEAD answer says 0,
    or the HEAD answer is not usable and the GET gives nothing or an empty
    body. *)
Lemma networkSize_zero (pf : Platform) (u : string) :
  sizeAtTest (networkSize pf u) = Num 0 <->
  headSaysZero pf u \/
  (~ headUsable pf u /\ (getGivesNothing pf u \/ getGivesEmptyBody pf u)).
Proof.
  unfold networkSize.
  destruct (headSize pf u) as [n|e] eqn:E.
  - pose proof E as E'. apply headSize_Returned in E'.
    destruct E' as (r & h & Hw & Hs & Hc & Hh & ->).
    cbn [sizeAtTest sizeInBytesOf]. split.
    + intro H. left. exists r, h. auto.
    + intros [(r' & h' & Hw' & _ & Hc' & _ & Hz)|[Hn _]].
      * rewrite Hw in Hw'. inversion Hw'; subst r'.
        rewrite Hc in Hc'. inversion Hc'; subst h'. exact Hz.
      * exfalso. apply Hn. exists r, h. auto.
  - assert (Hn : ~ headUsable pf u).
    { intros (r & h & Hw & Hs & Hc & Hh).
      assert (E' : headSize pf u = Returned (parseInt h)).
      { apply headSize_Returned. exists r, h. auto. }
      congruence. }
    unfold getSize, axiosRequest, validateStatus, getGivesNothing,
      getGivesEmptyBody.
    destruct (wireGet pf u) as [r|e'] eqn:Ew.
    + destruct (Z.ltb_spec (status r) 500) as [Hlt|Hge].
      * destruct (Z.eqb_spec (status r) 200) as [H200|H200];
          cbn [sizeAtTest sizeInBytesOf]; split.
        -- intro H. inversion H as [H0]. right. split; [exact Hn|]. right.
           exists r. auto.
        -- intros [(r' & h' & Hw' & Hs' & Hc' & Hh' & _)|[_ [Hg|(r' & Hr' & _ & Hb)]]].
           ++ exfalso. apply Hn. exists r', h'. auto.
           ++ contradiction.
           ++ inversion Hr'; subst r'. now rewrite Hb.
        -- intros _. right. split; [exact Hn|]. left. exact H200.
        -- reflexivity.
      * cbn [sizeAtTest]. split; [|reflexivity].
        intros _. right. split; [exact Hn|]. left. lia.
    + cbn [sizeAtTest]. split; [|reflexivity].
      intros _. right. split; [exact Hn|]. left. exact I.
Qed.

(** C8, as the code has it.  The display is Unknown exactly when the byte
    count is 0, and the byte count is 0 exactly in the cases [zeroCauses]
    lists: size determination failed (an undecodable payload, a failed
    GET), was unknowable (no pattern matched, the GET not 200), or gave
    the value 0 (a content-length of 0, an empty GET body, an empty decoded
    payload). *)
Theorem unknown_iff_zero (pf : Platform) (img : Merge.ImageRecord)
  (s : SizedImageRecord) :
  probe pf img = Returned s ->
  (fileSize s = "Unknown" <-> fileSizeBytes s = Num 0) /\
  (fileSizeBytes s = Num 0 <-> zeroCauses pf img).
Proof.
  intro Hp. split.
  - unfold probe in Hp.
    destruct (measure pf img) as [r|e]; inversion Hp; subst s; simpl.
    + apply sizeFields_Unknown_iff.
    + tauto.
  - rewrite (probe_bytes pf img s Hp). unfold measure, zeroCauses.
    destruct (startsWith (Merge.url img) "data:").
    + apply dataUriSize_zero.
    + apply networkSize_zero.
Qed.

Lemma unknown_iff_zero_witness :
  probe goodHost (imageAt "https://example.com/a.png")
    = Returned (withSize (imageAt "https://example.com/a.png") ("47.08 KB", Num 48213)) /\
  ((fileSize (withSize (imageAt "https://example.com/a.png") ("47.08 KB", Num 48213))
      = "Unknown" <->
    fileSizeBytes (withSize (imageAt "https://example.com/a.png") ("47.08 KB", Num 48213))
      = Num 0) /\
   (fileSizeBytes (withSize (imageAt "https://example.com/a.png") ("47.08 KB", Num 48213))
      = Num 0 <->
    zeroCauses goodHost (imageAt "https://example.com/a.png"))).
Proof.
  split; [reflexivity|].
  apply (unknown_iff_zero goodHost (imageAt "https://example.com/a.png")).
  reflexivity.
Defined.

(** C8 as stated fails: a HEAD answer of 200 with a content-length of 0 is
    a size determination that succeeded, and the record carries 0 bytes and
    Unknown. *)
Lemma zero_length_reported_unknown :
  measure zeroLengthHost (imageAt "https://example.com/a.png")
    = Returned (Assigned ByHead (Num 0)) /\
  probe zeroLengthHost (imageAt "https://example.com/a.png")
    = Returned (withSize (imageAt "https://example.com/a.png") ("Unknown", Num 0)) /\
  ~ determinationFailed zeroLengthHost (imageAt "https://example.com/a.png").
Proof.
  split; [reflexivity|]. split; [reflexivity|].
  intros [[e H]|H]; discriminate H.
Qed.

(** C10.  The record a probe returns has the url, width, height, alt and
    type of the image it was made from, on every path. *)
Theorem probe_frame (pf : Platform) (img : Merge.ImageRecord) :
  exists s,
    probe pf img = Returned s /\
    url s = Merge.url img /\ width s = Merge.width img /\
    height s = Merge.height img /\ alt s = Merge.alt img /\
    type s = Merge.type img /\
    (fileSize s, fileSizeBytes s)
      = match measure pf img with
        | Returned reading => sizeFields (sizeInBytesOf reading)
        | Thrown _ => ("Unknown", Num 0)
        end.
Proof.
  unfold probe. destruct (measure pf img) as [r|e]; eexists;
    (split; [reflexivity|]); simpl; repeat split.
  now destruct (sizeFields (sizeInBytesOf r)).
Qed.

End Probe.

(** ** The request handler and its pages (part_000 lines 171-359) *)

Module Handler.

Import Probe.

Inductive Viewport : Type := Desktop | Mobile.

(** The awaited browser calls of one viewport pass, in source order. *)
Inductive PageOp : Type :=
| NewPage | SetViewport | SetUserAgent | Goto | WaitForTimeout
| ScrollToBottom | ExtractImages | ClosePage.

Inductive Step : Type :=
| GetBrowser
| OnPage (v : Viewport) (op : PageOp).

(** What a request meets: which awaited call rejects and with which
    message, what the two extractions return, the platform of the probes,
    and whether [page.close()] on a page that is already closed rejects
    (Puppeteer's close asserts that the connection of the page is still
    there, and rejects with the message of [recloseMessage] when it is
    not). *)
Record Env : Type := {
  fault : Step -> option string;
  desktopDom : list Merge.ImageRecord;
  mobileDom : list Merge.ImageRecord;
  platform : Platform;
  recloseRejects : bool
}.

Definition recloseMessage : string :=
  "Protocol error: Connection closed. Most likely the page has been closed.".

Inductive PageState : Type := NotOpened | Open | Closed.

Inductive Response : Type :=
| Json200 (images : list SizedImageRecord) (count : Z)
| JsonError (code : Z) (error : string).

(** The handler's two page variables with the state of the page each
    holds ([NotOpened] while the variable is null), and what was sent. *)
Record World : Type := {
  desktopPage : PageState;
  mobilePage : PageState;
  sent : list Response
}.

Definition initial : World :=
  {| desktopPage := NotOpened; mobilePage := NotOpened; sent := [] |}.

Definition pageOf (v : Viewport) (w : World) : PageState :=
  match v with Desktop => desktopPage w | Mobile => mobilePage w end.

Definition setPage (v : Viewport) (st : PageState) (w : World) : World :=
  match v with
  | Desktop => {| desktopPage := st; mobilePage := mobilePage w; sent := sent w |}
  | Mobile => {| desktopPage := desktopPage w; mobilePage := st; sent := sent w |}
  end.

(** Awaited computations over the world; [Thrown] is a rejection. *)
Definition M (A : Type) : Type := World -> outcome A * World.

Definition ret {A : Type} (a : A) : M A := fun w => (Returned a, w).

Definition bind {A B : Type} (m : M A) (k : A -> M B) : M B :=
  fun w =>
    match m w with
    | (Returned a, w') => k a w'
    | (Thrown e, w') => (Thrown e, w')
    end.

Notation "x <- m ;; k" := (bind m (fun x => k))
  (at level 61, m at next level, right associativity).
Notation "m ;; k" := (bind m (fun _ => k))
  (at level 61, right associativity).

Definition throw {A : Type} (e : string) : M A := fun w => (Thrown e, w).

(** [try { body } catch (error) { handler(error.message) }] *)
Definition tryCatch {A : Type} (body : M A) (handler : string -> M A) : M A :=
  fun w =>
    match body w with
    | (Returned a, w') => (Returned a, w')
    | (Thrown e, w') => handler e w'
    end.

Section Request.

Variable env : Env.

Definition await (s : Step) : M unit :=
  match fault env s with
  | Some e => throw e
  | None => ret tt
  end.

(** [page = await browser.newPage()] *)
Definition newPage (v : Viewport) : M unit :=
  await (OnPage v NewPage) ;; fun w => (Returned tt, setPage v Open w).

(** [await page.close()] *)
Definition closePage (v : Viewport) : M unit :=
  fun w =>
    match pageOf v w with
    | Open =>
        match fault env (OnPage v ClosePage) with
        | Some e => (Thrown e, w)
        | None => (Returned tt, setPage v Closed w)
        end
    | Closed =>
        if recloseRejects env then (Thrown recloseMessage, w) else (Returned tt, w)
    | NotOpened => (Returned tt, w)
    end.

(** [res.status(code).json(...)] *)
Definition respond (r : Response) : M unit :=
  fun w => (Returned tt,
            {| desktopPage := desktopPage w; mobilePage := mobilePage w;
               sent := (sent w ++ [r])%list |}).

(** One viewport pass up to the extraction. *)
Definition render (v : Viewport) : M (list Merge.ImageRecord) :=
  newPage v ;;
  await (OnPage v SetViewport) ;;
  await (OnPage v SetUserAgent) ;;
  await (OnPage v Goto) ;;
  await (OnPage v WaitForTimeout) ;;
  await (OnPage v ScrollToBottom) ;;
  await (OnPage v ExtractImages) ;;
  ret (match v with Desktop => desktopDom env | Mobile => mobileDom env end).

(** [if (page) await page.close()] *)
Definition closeIfSet (v : Viewport) : M unit :=
  fun w =>
    match pageOf v w with
    | NotOpened => (Returned tt, w)
    | _ => closePage v w
    end.

Definition tryBlock (url : string) : M unit :=
  if negb (truthy url) then respond (JsonError 400 "URL is required")
  else
    await GetBrowser ;;
    desktopImages <- render Desktop ;;
    closePage Desktop ;;
    mobileImages <- render Mobile ;;
    closePage Mobile ;;
    let images := fst (Merge.mergeViewports desktopImages mobileImages) in
    match imagesWithSizes (platform env) images with
    | Returned sized => respond (Json200 sized (Z.of_nat (length sized)))
    | Thrown e => throw e
    end.

Definition catchBlock (message : string) : M unit :=
  closeIfSet Desktop ;;
  closeIfSet Mobile ;;
  respond (JsonError 500 ("Failed to scrape images: " ++ message)).

(** [app.post('/api/scrape', ...)]: a [Thrown] result is a rejection that
    left the handler, with nothing sent by the catch block. *)
Definition scrape (url : string) : M unit :=
  tryCatch (tryBlock url) catchBlock.

End Request.

(** A request whose mobile navigation runs into the 30 s timeout, against
    a browser that rejects a second close. *)
Definition mobileTimeout : Env := {|
  fault := fun s =>
    match s with
    | OnPage Mobile Goto => Some "Navigation timeout of 30000 ms exceeded"
    | _ => None
    end;
  desktopDom := [Merge.recA; Merge.recB];
  mobileDom := [Merge.recB_mobile; Merge.recC];
  platform := goodHost;
  recloseRejects := true
|}.

(** The same request with the desktop navigation failing instead. *)
Definition desktopTimeout : Env := {|
  fault := fun s =>
    match s with
    | OnPage Desktop Goto => Some "Navigation timeout of 30000 ms exceeded"
    | _ => None
    end;
  desktopDom := [Merge.recA; Merge.recB];
  mobileDom := [Merge.recB_mobile; Merge.recC];
  platform := goodHost;
  recloseRejects := true
|}.

(** The awaited calls that can make a render fail, in the order the
    handler reaches them. *)
Definition renderSteps (v : Viewport) : list Step :=
  map (OnPage v)
      [NewPage; SetViewport; SetUserAgent; Goto; WaitForTimeout;
       ScrollToBottom; ExtractImages].

Fixpoint firstFault (f : Step -> option string) (steps : list Step)
  : option string :=
  match steps with
  | [] => None
  | s :: steps' =>
      match f s with
      | Some e => Some e
      | None => firstFault f steps'
      end
  end.

Definition closesResolve (env : Env) : Prop :=
  forall v, fault env (OnPage v ClosePage) = None.

(** *** The page life cycle *)

Ltac run_handler :=
  unfold scrape, tryCatch, tryBlock, catchBlock, render, newPage, closeIfSet,
    closePage, respond, await, bind, ret, throw, initial; simpl.

Ltac next_fault env :=
  match goal with
  | |- context [fault env ?s] =>
      let E := fresh "E" in
      destruct (fault env s) eqn:E; simpl in *
  end.

(** A failure during the desktop pass: one 500 response that wraps the
    message, the desktop page closed if it was opened, no mobile page. *)
Lemma desktop_failure_released (env : Env) (url e : string) :
  truthy url = true ->
  closesResolve env ->
  firstFault (fault env) (GetBrowser :: renderSteps Desktop) = Some e ->
  exists w,
    scrape env url initial = (Returned tt, w) /\
    desktopPage w <> Open /\ mobilePage w = NotOpened /\
    sent w = [JsonError 500 ("Failed to scrape images: " ++ e)].
Proof.
  intros Hu Hc Hf. pose proof (Hc Desktop) as Hcd. simpl in Hf.
  run_handler. rewrite Hu. simpl. rewrite ?Hcd.
  repeat (next_fault env;
          [inversion Hf; subst; rewrite ?Hcd; simpl; eexists;
           repeat split; simpl; congruence|]).
  discriminate Hf.
Qed.

(** A failure during the mobile pass when a second close rejects: the
    catch block stops at its first statement, so the mobile page, if it was
    opened, stays open and no response is sent. *)
Lemma mobile_failure_not_released (env : Env) (url e : string) :
  truthy url = true ->
  closesResolve env ->
  recloseRejects env = true ->
  firstFault (fault env) (GetBrowser :: renderSteps Desktop) = None ->
  firstFault (fault env) (renderSteps Mobile) = Some e ->
  exists w,
    scrape env url initial = (Thrown recloseMessage, w) /\
    sent w = [] /\ desktopPage w = Closed /\
    (mobilePage w = Open \/
     (mobilePage w = NotOpened /\ fault env (OnPage Mobile NewPage) = Some e)).
Proof.
  intros Hu Hc Hr Hd Hm. pose proof (Hc Desktop) as Hcd.
  simpl in Hd, Hm. run_handler. rewrite Hu. simpl.
  repeat (next_fault env; [discriminate Hd|]).
  rewrite Hcd. simpl.
  next_fault env.
  { rewrite Hr. inversion Hm; subst. eexists. repeat split. right. auto. }
  repeat (next_fault env;
          [rewrite Hr; eexists; repeat split; left; reflexivity|]).
  discriminate Hm.
Qed.

(** With a close that resolves on a closed page, every request ends with
    exactly one response and no page open: the 500 response wrapping the
    first failure, or the 200 response. *)
Lemma scrape_releases_when_reclose_resolves (env : Env) (url : string) :
  truthy url = true ->
  closesResolve env ->
  recloseRejects env = false ->
  exists w,
    scrape env url initial = (Returned tt, w) /\
    desktopPage w <> Open /\ mobilePage w <> Open /\
    match firstFault (fault env)
            (GetBrowser :: renderSteps Desktop ++ renderSteps Mobile)%list with
    | Some e => sent w = [JsonError 500 ("Failed to scrape images: " ++ e)]
    | None => exists sized, sent w = [Json200 sized (Z.of_nat (length sized))]
    end.
Proof.
  intros Hu Hc Hr. pose proof (Hc Desktop) as Hcd. pose proof (Hc Mobile) as Hcm.
  destruct (imagesWithSizes_fulfilled (platform env)
              (fst (Merge.mergeViewports (desktopDom env) (mobileDom env))))
    as (sized & Hs & _).
  run_handler. rewrite Hu. simpl.
  repeat (next_fault env;
          [rewrite ?Hcd, ?Hcm, ?Hr; simpl; eexists;
           repeat split; simpl; congruence|];
          rewrite ?Hcd, ?Hcm; simpl).
  rewrite Hs. simpl. eexists. repeat split; simpl; try congruence. eauto.
Qed.

(** C9 at a mobile navigation timeout: the desktop page was closed after
    its extraction, the catch block closes it a second time, that close
    rejects, and the handler ends with the mobile page open and nothing
    sent. *)
Theorem mobile_timeout_leaves_page_open :
  scrape mobileTimeout "https://example.com/" initial
    = (Thrown recloseMessage,
       {| desktopPage := Closed; mobilePage := Open; sent := [] |}).
Proof. reflexivity. Qed.

(** The desktop navigation timing out instead: the page is closed and the
    failure is reported once. *)
Example desktop_timeout_reported :
  scrape desktopTimeout "https://example.com/" initial
    = (Returned tt,
       {| desktopPage := Closed; mobilePage := NotOpened;
          sent := [JsonError 500
                     "Failed to scrape images: Navigation timeout of 30000 ms exceeded"] |}).
Proof. reflexivity. Qed.

End Handler.

(** ** The walk over the document
       ([extractImagesFromPage], part_000 lines 68-161)

    The elements the four loops visit, with the properties the loops read,
    and the candidates each element contributes.  A property that is
    undefined or null where a string is expected is the empty string when
    the source only tests its truthiness, and an [option] when the source
    passes it on. *)

Module Dom.

Import Resolve.

(** [s.split(sep)] for a one-character separator. *)
Fixpoint splitOn (sep : ascii) (s : string) : list string :=
  match s with
  | EmptyString => [EmptyString]
  | String c s' =>
      if Ascii.eqb c sep then EmptyString :: splitOn sep s'
      else
        match splitOn sep s' with
        | piece :: pieces => String c piece :: pieces
        | [] => [String c EmptyString]
        end
  end.

(** [pieces.join(sep)] *)
Fixpoint join (sep : string) (pieces : list string) : string :=
  match pieces with
  | [] => ""
  | [p] => p
  | p :: rest => p ++ sep ++ join sep rest
  end.

Fixpoint trimEnd (s : string) : string :=
  match s with
  | EmptyString => EmptyString
  | String c s' =>
      match trimEnd s' with
      | EmptyString => if Size.isWhiteSpace c then EmptyString else String c EmptyString
      | String d r => String c (String d r)
      end
  end.

(** [s.trim()] *)
Definition trim (s : string) : string := trimEnd (Size.trimStart s).

(** [srcsetItem.trim().split(' ')[0]] *)
Definition firstToken (srcsetItem : string) : string :=
  nth 0 (splitOn " " (trim srcsetItem)) "".

(** The sources a srcset attribute names, one per comma-separated item. *)
Definition srcsetSources (srcset : string) : list string :=
  map firstToken (splitOn "," srcset).

(** [a || b] on strings *)
Definition orElse (a b : string) : string := if truthy a then a else b.

(** [a || b || ... || 'Natural'] on pixel counts: the first one that is
    not 0, printed, or [None] for the marker. *)
Definition dimension (pixels : list Z) : option string :=
  match find (fun n => negb (n =? 0)) pixels with
  | Some n => Some (Size.decimal n)
  | None => None
  end.

Record ImgElement : Type := {
  imgSrc : string;
  datasetSrc : string;
  datasetLazySrc : string;
  datasetOriginal : string;
  datasetLazyOriginal : string;
  attrDataSrc : string;
  attrDataLazySrc : string;
  currentSrc : string;
  imgSrcset : string;
  naturalWidth : Z;
  naturalHeight : Z;
  imgWidth : Z;
  imgHeight : Z;
  imgRectWidth : Z;      (* Math.round(rect.width) *)
  imgRectHeight : Z;
  imgAlt : string;
  imgTitle : string
}.

Record SourceElement : Type := {
  sourceSrcset : string;
  sourceSrc : string
}.

Record SvgImage : Type := {
  hrefBaseVal : string;
  xlinkHref : string;
  hrefAttr : string;
  svgWidth : option string;   (* img.width.baseVal.value, None when 0 *)
  svgHeight : option string
}.

Definition candidate (s : string) (w h : option string) (a k : string)
  : Extract.Candidate :=
  {| Extract.src := s; Extract.dimWidth := w; Extract.dimHeight := h;
     Extract.altText := a; Extract.kind := k |}.

(** The array [sources] of the img loop. *)
Definition imgSources (img : ImgElement) : list string :=
  (filter truthy
     [imgSrc img; datasetSrc img; datasetLazySrc img; datasetOriginal img;
      datasetLazyOriginal img; attrDataSrc img; attrDataLazySrc img;
      currentSrc img]
   ++ (if truthy (imgSrcset img)
       then filter truthy (srcsetSources (imgSrcset img))
       else []))%list.

Definition imgCandidates (img : ImgElement) : list Extract.Candidate :=
  map (fun s =>
         candidate s
           (dimension [naturalWidth img; imgWidth img; imgRectWidth img])
           (dimension [naturalHeight img; imgHeight img; imgRectHeight img])
           (orElse (imgAlt img) (orElse (imgTitle img) "No alt text"))
           "img")
      (imgSources img).

Definition sourceCandidates (source : SourceElement) : list Extract.Candidate :=
  let srcset := orElse (sourceSrcset source) (sourceSrc source) in
  if truthy srcset then
    map (fun s => candidate s None None "Picture/video source" "source")
        (srcsetSources srcset)
  else [].

Definition svgCandidates (img : SvgImage) : list Extract.Candidate :=
  let href := orElse (hrefBaseVal img) (orElse (xlinkHref img) (hrefAttr img)) in
  if truthy href then
    [candidate href (svgWidth img) (svgHeight img) "SVG image" "svg"]
  else [].

(** A srcset attribute as authors write it: every item a URL, then, if
    there is a descriptor, a blank and the descriptor; items separated by a
    comma and a blank. *)
Definition srcsetItem (entry : string * string) : string :=
  if truthy (snd entry) then fst entry ++ " " ++ snd entry else fst entry.

Definition renderSrcset (entries : list (string * string)) : string :=
  join ", " (map srcsetItem entries).

(** A character of a URL that the split steps leave alone: no white space
    and no comma. *)
Definition tokenChar (c : ascii) : bool :=
  negb (Size.isWhiteSpace c) && Regex.notChar "," c.

Definition wellFormedEntry (entry : string * string) : Prop :=
  fst entry <> "" /\ Regex.all tokenChar (fst entry) = true /\
  Regex.all (Regex.notChar ",") (snd entry) = true.

(** *** Facts about split and trim *)

Lemma splitOn_not_nil (sep : ascii) (s : string) : splitOn sep s <> [].
Proof.
  destruct s as [|c s]; simpl; [discriminate|].
  destruct (Ascii.eqb c sep); [discriminate|].
  destruct (splitOn sep s); discriminate.
Qed.

Lemma splitOn_all (P : ascii -> bool) (sep : ascii) (s : string) :
  Regex.all P s = true -> Forall (fun p => Regex.all P p = true) (splitOn sep s).
Proof.
  induction s as [|c s IH]; simpl; intro H.
  - constructor; [reflexivity | constructor].
  - apply andb_true_iff in H. destruct H as [Hc Hs]. specialize (IH Hs).
    destruct (Ascii.eqb c sep).
    + constructor; [reflexivity | exact IH].
    + destruct (splitOn sep s) as [|p ps].
      * constructor; [simpl; now rewrite Hc | constructor].
      * inversion IH; subst. constructor; [simpl; now rewrite Hc | assumption].
Qed.

Lemma splitOn_no_sep (sep : ascii) (s : string) :
  Forall (fun p => Regex.all (Regex.notChar sep) p = true) (splitOn sep s).
Proof.
  induction s as [|c s IH]; simpl.
  - constructor; [reflexivity | constructor].
  - destruct (Ascii.eqb c sep) eqn:E.
    + constructor; [reflexivity | exact IH].
    + destruct (splitOn sep s) as [|p ps].
      * constructor; [|constructor]. simpl. unfold Regex.notChar. now rewrite E.
      * inversion IH; subst. constructor; [|assumption].
        simpl. unfold Regex.notChar at 1. now rewrite E.
Qed.

Lemma trimStart_all (P : ascii -> bool) (s : string) :
  Regex.all P s = true -> Regex.all P (Size.trimStart s) = true.
Proof.
  induction s as [|c s IH]; simpl; intro H; [reflexivity|].
  destruct (Size.isWhiteSpace c); [|exact H].
  apply andb_true_iff in H. now apply IH.
Qed.

Lemma trimEnd_all (P : ascii -> bool) (s : string) :
  Regex.all P s = true -> Regex.all P (trimEnd s) = true.
Proof.
  induction s as [|c s IH]; simpl; intro H; [reflexivity|].
  apply andb_true_iff in H. destruct H as [Hc Hs]. specialize (IH Hs).
  destruct (trimEnd s) as [|d r].
  - destruct (Size.isWhiteSpace c); simpl; [reflexivity | now rewrite Hc].
  - change (Regex.all P (String c (String d r)))
      with (P c && Regex.all P (String d r)). now rewrite Hc, IH.
Qed.

Lemma trim_all (P : ascii -> bool) (s : string) :
  Regex.all P s = true -> Regex.all P (trim s) = true.
Proof. intro H. unfold trim. now apply trimEnd_all, trimStart_all. Qed.

Lemma nth0_Forall (P : string -> Prop) (l : list string) :
  l <> [] -> Forall P l -> P (nth 0 l "").
Proof. destruct l; [contradiction|]. intros _ H. now inversion H. Qed.

Lemma splitOn_clean (sep : ascii) (p : string) :
  Regex.all (Regex.notChar sep) p = true -> splitOn sep p = [p].
Proof.
  unfold Regex.notChar. induction p as [|c p IH]; simpl; intro H; [reflexivity|].
  apply andb_true_iff in H. destruct H as [Hc Hp].
  apply negb_true_iff in Hc. rewrite Hc, (IH Hp). reflexivity.
Qed.

Lemma splitOn_app_sep (sep : ascii) (p r : string) :
  Regex.all (Regex.notChar sep) p = true ->
  splitOn sep (p ++ String sep r) = p :: splitOn sep r.
Proof.
  unfold Regex.notChar. induction p as [|c p IH]; simpl; intro H.
  - now rewrite Ascii.eqb_refl.
  - apply andb_true_iff in H. destruct H as [Hc Hp].
    apply negb_true_iff in Hc. rewrite Hc, (IH Hp). reflexivity.
Qed.

Lemma trimEnd_app (u r : string) :
  Regex.all (fun c => negb (Size.isWhiteSpace c)) u = true ->
  trimEnd (u ++ r) = u ++ trimEnd r.
Proof.
  induction u as [|c u IH]; simpl; intro H; [reflexivity|].
  apply andb_true_iff in H. destruct H as [Hc Hu].
  apply negb_true_iff in Hc. rewrite (IH Hu), Hc.
  destruct (u ++ trimEnd r); reflexivity.
Qed.

Lemma trimEnd_head (c : ascii) (s : string) :
  trimEnd (String c s) = "" \/ exists r, trimEnd (String c s) = String c r.
Proof.
  simpl. destruct (trimEnd s).
  - destruct (Size.isWhiteSpace c); eauto.
  - eauto.
Qed.

Lemma tokenChar_split (u : string) :
  Regex.all tokenChar u = true ->
  Regex.all (fun c => negb (Size.isWhiteSpace c)) u = true /\
  Regex.all (Regex.notChar " ") u = true /\
  Regex.all (Regex.notChar ",") u = true.
Proof.
  unfold tokenChar. induction u as [|c u IH]; simpl; intro H; [auto|].
  apply andb_true_iff in H. destruct H as [Hc Hu].
  apply andb_true_iff in Hc. destruct Hc as [Hw Hcomma].
  destruct (IH Hu) as (I1 & I2 & I3). rewrite Hw, Hcomma, I1, I2, I3.
  repeat split. simpl. rewrite andb_true_r.
  unfold Regex.notChar. destruct (Ascii.eqb_spec c " ") as [->|]; [|reflexivity].
  discriminate Hw.
Qed.

(** The first token of an item that starts with its URL is the URL, with
    or without a blank in front of the item. *)
Lemma firstToken_item (u rest : string) :
  u <> "" -> Regex.all tokenChar u = true ->
  (rest = "" \/ exists d, rest = String " " d) ->
  firstToken (u ++ rest) = u /\ firstToken (String " " (u ++ rest)) = u.
Proof.
  intros Hne Hu Hrest. destruct (tokenChar_split u Hu) as (Hw & Hsp & _).
  assert (Hs : Size.trimStart (u ++ rest) = u ++ rest).
  { destruct u as [|c u']; [contradiction|]. simpl in *.
    apply andb_true_iff in Hw. destruct Hw as [Hc _].
    apply negb_true_iff in Hc. now rewrite Hc. }
  assert (E : firstToken (u ++ rest) = u).
  { unfold firstToken, trim. rewrite Hs, (trimEnd_app u rest Hw).
    destruct Hrest as [->|[d ->]].
    - simpl trimEnd. rewrite append_nil_r, (splitOn_clean " " u Hsp). reflexivity.
    - destruct (trimEnd_head " " d) as [->|[r ->]].
      + rewrite append_nil_r, (splitOn_clean " " u Hsp). reflexivity.
      + rewrite (splitOn_app_sep " " u r Hsp). reflexivity. }
  split; [exact E|]. unfold firstToken, trim in *. simpl Size.trimStart.
  exact E.
Qed.

Lemma srcsetItem_no_comma (entry : string * string) :
  wellFormedEntry entry ->
  Regex.all (Regex.notChar ",") (srcsetItem entry) = true.
Proof.
  intros (_ & Hu & Hd). destruct (tokenChar_split _ Hu) as (_ & _ & Hc).
  unfold srcsetItem. destruct (truthy (snd entry)); [|exact Hc].
  rewrite !Regex.all_app, Hc, Hd. reflexivity.
Qed.

Lemma firstToken_srcsetItem (entry : string * string) :
  wellFormedEntry entry ->
  firstToken (srcsetItem entry) = fst entry /\
  firstToken (String " " (srcsetItem entry)) = fst entry.
Proof.
  intros (Hne & Hu & _). unfold srcsetItem.
  destruct (truthy (snd entry)).
  - apply firstToken_item;
      [assumption | assumption | right; exists (snd entry); reflexivity].
  - rewrite <- (append_nil_r (fst entry)) at 1 3.
    apply firstToken_item; [assumption | assumption | now left].
Qed.

Lemma splitOn_join (items : list string) :
  items <> [] ->
  Forall (fun p => Regex.all (Regex.notChar ",") p = true) items ->
  splitOn "," (join ", " items) = hd "" items :: map (String " ") (tl items).
Proof.
  induction items as [|p items IH]; intros Hne H; [contradiction|].
  inversion H as [|x l Hp Hl]; subst. destruct items as [|q items].
  - simpl. now apply splitOn_clean.
  - change (join ", " (p :: q :: items))
      with (p ++ String "," (String " " (join ", " (q :: items)))).
    rewrite (splitOn_app_sep "," p _ Hp).
    cbn [splitOn Ascii.eqb Bool.eqb]. rewrite IH by (discriminate || assumption).
    reflexivity.
Qed.

(** The sources of a well-formed srcset are its URLs, in order. *)
Lemma srcsetSources_render (entries : list (string * string)) :
  entries <> [] -> Forall wellFormedEntry entries ->
  srcsetSources (renderSrcset entries) = map fst entries.
Proof.
  intros Hne H. unfold srcsetSources, renderSrcset.
  rewrite splitOn_join.
  - destruct entries as [|e entries]; [contradiction|].
    inversion H as [|x l He Hl]; subst. simpl.
    rewrite (proj1 (firstToken_srcsetItem e He)). f_equal.
    rewrite map_map. clear Hne H He.
    induction Hl as [|e' l He' _ IH]; simpl; [reflexivity|].
    now rewrite (proj2 (firstToken_srcsetItem e' He')), IH.
  - destruct entries; [contradiction | discriminate].
  - apply Forall_map. eapply Forall_impl; [|exact H].
    intros e He. now apply srcsetItem_no_comma.
Qed.

End Dom.

(** ** The url(...) references of a background-image value
       (part_000 lines 128-131)

    [bgImage.matchAll] with the global pattern of the source: the letters
    url and an opening parenthesis, an optional quote (single or double),
    one or more characters that are neither a quote nor a closing
    parenthesis (the capture group), an optional quote, a closing
    parenthesis.  The pattern is tried at every position from left to
    right, and the search goes on behind each match. *)

Module Scan.

Inductive atom : Type :=
| Lit (s : string)
| Opt (cls : ascii -> bool)
| Group (cls : ascii -> bool).

(** A greedy [class+] with [taken] already consumed, then the rest of the
    pattern [k]; what [k] returns is the captures behind the group and the
    text behind the match. *)
Fixpoint plus (cls : ascii -> bool)
  (k : string -> option (list string * string))
  (taken s : string) : option (list string * string) :=
  match s with
  | EmptyString => None
  | String c s' =>
      if cls c then
        match plus cls k (taken ++ String c "") s' with
        | Some r => Some r
        | None =>
            match k s' with
            | Some (caps, rest) => Some ((taken ++ String c "") :: caps, rest)
            | None => None
            end
        end
      else None
  end.

(** The pattern at the head of [s]: the captures and the text behind the
    match. *)
Fixpoint matchAt (re : list atom) (s : string) : option (list string * string) :=
  match re with
  | [] => Some ([], s)
  | Lit p :: re' =>
      match Regex.strip p s with
      | Some rest => matchAt re' rest
      | None => None
      end
  | Opt cls :: re' =>
      match s with
      | String c s' =>
          if cls c then
            match matchAt re' s' with
            | Some r => Some r
            | None => matchAt re' s
            end
          else matchAt re' s
      | EmptyString => matchAt re' s
      end
  | Group cls :: re' => plus cls (matchAt re') "" s
  end.

(** All matches from left to right.  [skip] counts the characters of the
    last match that are still to be passed over; a match that consumed
    nothing moves the search on by one character. *)
Fixpoint matchAll (re : list atom) (skip : nat) (s : string) : list (list string) :=
  match s with
  | EmptyString => []
  | String _ s' =>
      match skip with
      | S n => matchAll re n s'
      | O =>
          match matchAt re s with
          | Some (caps, rest) =>
              caps :: matchAll re (String.length s' - String.length rest) s'
          | None => matchAll re 0 s'
          end
      end
  end.

(** A single or a double quote. *)
Definition quote (c : ascii) : bool :=
  Ascii.eqb c "039"%char || Ascii.eqb c "034"%char.

(** The class of the capture group: no quote, no closing parenthesis. *)
Definition urlChar (c : ascii) : bool :=
  negb (quote c || Ascii.eqb c ")"%char).

Definition urlPattern : list atom :=
  [Lit "url("; Opt quote; Group urlChar; Opt quote; Lit ")"].

(** [match[1]] of every match. *)
Definition cssUrls (bgImage : string) : list string :=
  map (fun caps => nth 0 caps "") (matchAll urlPattern 0 bgImage).

Example cssUrls_two_layers :
  cssUrls (String "u" (String "r" (String "l" (String "(" (String "034"
            ("a.png" ++ String "034" ("), url(b.png)")))))))
    = ["a.png"; "b.png"].
Proof. reflexivity. Qed.

Example cssUrls_gradient : cssUrls "linear-gradient(red, blue)" = [].
Proof. reflexivity. Qed.

(** One layer as the browser serializes it: url, the reference between
    double quotes, in parentheses. *)
Definition layer (u : string) : string :=
  "url(" ++ String "034" (u ++ String "034" ")").

(** A value of several layers, separated by a comma and a blank. *)
Fixpoint join_layers (us : list string) : string :=
  match us with
  | [] => ""
  | [u] => layer u
  | u :: rest => layer u ++ ", " ++ join_layers rest
  end.

(** A reference the capture group can hold whole. *)
Definition clean (u : string) : Prop :=
  u <> "" /\ Regex.all urlChar u = true.

(** *** Facts about the search *)

Lemma plus_captures (cls : ascii -> bool)
  (k : string -> option (list string * string)) (s : string) :
  forall taken caps rest, plus cls k taken s = Some (caps, rest) ->
  exists g r cs,
    s = g ++ r /\ g <> "" /\ Regex.all cls g = true /\
    k r = Some (cs, rest) /\ caps = (taken ++ g) :: cs.
Proof.
  induction s as [|c s IH]; intros taken caps rest H; simpl in H; [discriminate|].
  destruct (cls c) eqn:Ec; [|discriminate].
  destruct (plus cls k (taken ++ String c "") s) as [[caps' rest']|] eqn:Ep.
  - inversion H; subst caps' rest'. clear H.
    destruct (IH _ _ _ Ep) as (g & r & cs & -> & _ & Hall & Hk & ->).
    exists (String c g), r, cs. simpl. rewrite Ec, Hall.
    repeat split; [discriminate | assumption|].
    now rewrite append_assoc.
  - destruct (k s) as [[cs rest']|] eqn:Ek; [|discriminate].
    inversion H; subst caps rest'. clear H.
    exists (String c ""), s, cs. simpl. rewrite Ec.
    repeat split; [discriminate | assumption].
Qed.

(** The group takes a run of class characters whole when the pattern goes
    on behind it. *)
Lemma plus_greedy (cls : ascii -> bool)
  (k : string -> option (list string * string)) (g : string) :
  forall taken r cs rest,
    g <> "" -> Regex.all cls g = true ->
    match r with EmptyString => True | String c _ => cls c = false end ->
    k r = Some (cs, rest) ->
    plus cls k taken (g ++ r) = Some ((taken ++ g) :: cs, rest).
Proof.
  induction g as [|c g IH]; intros taken r cs rest Hne Hall Hstop Hk;
    [contradiction|].
  simpl in *. apply andb_true_iff in Hall. destruct Hall as [Hc Hg].
  rewrite Hc. destruct g as [|d g].
  - simpl. assert (E : plus cls k (taken ++ String c "") r = None).
    { destruct r as [|x r]; simpl; [reflexivity | now rewrite Hstop]. }
    now rewrite E, Hk.
  - rewrite (IH (taken ++ String c "") r cs rest);
      [now rewrite append_assoc | discriminate | assumption | assumption
      | assumption].
Qed.

(** The character classes of the groups of a pattern, in order. *)
Fixpoint groups (re : list atom) : list (ascii -> bool) :=
  match re with
  | [] => []
  | Group cls :: re' => cls :: groups re'
  | _ :: re' => groups re'
  end.

(** Every capture is a non-empty run of characters of its group's class. *)
Lemma matchAt_captures (re : list atom) :
  forall s caps rest, matchAt re s = Some (caps, rest) ->
  Forall2 (fun cls g => g <> "" /\ Regex.all cls g = true) (groups re) caps.
Proof.
  induction re as [|[p|cls|cls] re IH]; intros s caps rest H; simpl in H.
  - inversion H. constructor.
  - destruct (Regex.strip p s) as [r|]; [|discriminate]. simpl. eauto.
  - simpl. destruct s as [|c s']; [eauto|].
    destruct (cls c); [|eauto].
    destruct (matchAt re s') as [x|] eqn:E; [|eauto].
    inversion H; subst x. eauto.
  - apply plus_captures in H.
    destruct H as (g & r & cs & _ & Hne & Hall & Hk & ->).
    simpl. constructor; [split; assumption | eauto].
Qed.

Lemma urlPattern_match (s : string) (caps : list string) (rest : string) :
  matchAt urlPattern s = Some (caps, rest) ->
  exists u, caps = [u] /\ clean u.
Proof.
  intro H. apply matchAt_captures in H. simpl in H.
  inversion H as [|cls g l l' Hg Hl]; subst. inversion Hl; subst.
  exists g. split; [reflexivity | exact Hg].
Qed.

Lemma matchAll_Forall (re : list atom) (P : list string -> Prop) :
  (forall s caps rest, matchAt re s = Some (caps, rest) -> P caps) ->
  forall s skip, Forall P (matchAll re skip s).
Proof.
  intros HP s. induction s as [|c s IH]; intro skip; simpl; [constructor|].
  destruct skip as [|n]; [|apply IH].
  destruct (matchAt re (String c s)) as [[caps rest]|] eqn:E; [|apply IH].
  constructor; [now apply (HP _ _ _ E) | apply IH].
Qed.

Lemma matchAll_clean (s : string) (skip : nat) :
  Forall (fun caps => exists u, caps = [u] /\ clean u)
         (matchAll urlPattern skip s).
Proof. apply matchAll_Forall. exact urlPattern_match. Qed.

Lemma matchAll_skip (re : list atom) (m : string) :
  forall rest, matchAll re (String.length m) (m ++ rest) = matchAll re 0 rest.
Proof.
  induction m as [|c m IH]; intro rest; simpl.
  - destruct rest; reflexivity.
  - apply IH.
Qed.

Lemma matchAt_Lit (p : string) (re : list atom) (r : string) :
  matchAt (Lit p :: re) (p ++ r) = matchAt re r.
Proof.
  simpl. assert (E : Regex.strip p (p ++ r) = Some r) by now apply Regex.strip_app.
  now rewrite E.
Qed.

Lemma matchAt_Opt_take (cls : ascii -> bool) (re : list atom) (c : ascii)
  (s : string) (x : list string * string) :
  cls c = true -> matchAt re s = Some x ->
  matchAt (Opt cls :: re) (String c s) = Some x.
Proof. intros Hc H. simpl. now rewrite Hc, H. Qed.

Lemma layer_app (u rest : string) :
  layer u ++ rest = "url(" ++ String "034" (u ++ String "034" (")" ++ rest)).
Proof.
  unfold layer. rewrite append_assoc. simpl. now rewrite append_assoc.
Qed.

Lemma matchAt_layer (u rest : string) :
  clean u -> matchAt urlPattern (layer u ++ rest) = Some ([u], rest).
Proof.
  intros [Hne Hall]. rewrite layer_app. unfold urlPattern.
  rewrite matchAt_Lit. apply matchAt_Opt_take; [reflexivity|].
  change (plus urlChar (matchAt [Opt quote; Lit ")"]) ""
            (u ++ String "034" (")" ++ rest)) = Some ([u], rest)).
  apply (plus_greedy urlChar _ u "" _ [] rest); [assumption | assumption | reflexivity|].
  apply matchAt_Opt_take; [reflexivity|].
  now rewrite matchAt_Lit.
Qed.

Lemma matchAll_layer (u rest : string) :
  clean u ->
  matchAll urlPattern 0 (layer u ++ rest) = [u] :: matchAll urlPattern 0 rest.
Proof.
  intro Hu. pose proof (matchAt_layer u rest Hu) as M.
  remember (layer u ++ rest) as s eqn:Es.
  assert (Et : exists m, s = String "u" (m ++ rest)).
  { exists ("rl(" ++ String "034" (u ++ String "034" ")")). subst s. reflexivity. }
  destruct Et as [m Em]. rewrite Em in *. cbn [matchAll]. rewrite M.
  f_equal. rewrite length_app.
  replace (String.length m + String.length rest - String.length rest)%nat
    with (String.length m) by lia.
  apply matchAll_skip.
Qed.

(** The comma and the blank between two layers start no match. *)
Lemma matchAll_separator (rest : string) :
  matchAll urlPattern 0 (", " ++ rest) = matchAll urlPattern 0 rest.
Proof. simpl. destruct rest; reflexivity. Qed.

(** X6.  Every reference found in a background-image value is non-empty
    and holds no quote and no closing parenthesis. *)
Lemma cssUrls_clean (bgImage : string) : Forall clean (cssUrls bgImage).
Proof.
  unfold cssUrls. apply Forall_map.
  eapply Forall_impl; [|apply matchAll_clean].
  intros caps (u & -> & Hu). exact Hu.
Qed.

(** X7.  From a value of one or more layers as the browser serializes
    them, each a reference between double quotes inside url(...), the
    references come back whole and in order. *)
Lemma cssUrls_layers (us : list string) :
  Forall clean us -> cssUrls (join_layers us) = us.
Proof.
  unfold cssUrls. induction 1 as [|u us Hu Hus IH]; [reflexivity|].
  destruct us as [|u' us'].
  - cbn [join_layers]. rewrite <- (append_nil_r (layer u)).
    rewrite matchAll_layer by assumption. reflexivity.
  - change (join_layers (u :: u' :: us'))
      with (layer u ++ ", " ++ join_layers (u' :: us')).
    rewrite matchAll_layer by assumption.
    rewrite matchAll_separator. cbn [map nth]. f_equal. exact IH.
Qed.

Lemma cssUrls_layers_witness :
  Forall clean ["https://example.com/a.png"; "img/b.png"] /\
  cssUrls (join_layers ["https://example.com/a.png"; "img/b.png"])
    = ["https://example.com/a.png"; "img/b.png"].
Proof.
  assert (H : Forall clean ["https://example.com/a.png"; "img/b.png"]).
  { repeat constructor; discriminate. }
  split; [exact H|].
  exact (cssUrls_layers ["https://example.com/a.png"; "img/b.png"] H).
Defined.

End Scan.

(** ** The records of a document
       ([extractImagesFromPage], part_000 lines 51-169) *)

Module Page.

Import Resolve Dom.

(** An element as the background loop sees it; [ariaLabel] is empty when
    the attribute is missing. *)
Record StyledElement : Type := {
  backgroundImage : string;
  boxWidth : Z;        (* Math.round(rect.width) *)
  boxHeight : Z;
  ariaLabel : string
}.

Definition backgroundCandidates (elem : StyledElement) : list Extract.Candidate :=
  let bgImage := backgroundImage elem in
  if truthy bgImage && negb (String.eqb bgImage "none") then
    map (fun u =>
           candidate u (dimension [boxWidth elem]) (dimension [boxHeight elem])
             (orElse (ariaLabel elem) "Background image") "background")
        (Scan.cssUrls bgImage)
  else [].

(** What the four [querySelectorAll] calls return, in document order. *)
Record Document : Type := {
  imgs : list ImgElement;
  sources : list SourceElement;
  elements : list StyledElement;
  svgImages : list SvgImage
}.

(** Every source the four loops pass to [resolveUrl], in the order they
    reach it. *)
Definition candidates (doc : Document) : list Extract.Candidate :=
  (flat_map imgCandidates (imgs doc)
   ++ flat_map sourceCandidates (sources doc)
   ++ flat_map backgroundCandidates (elements doc)
   ++ flat_map svgCandidates (svgImages doc))%list.

Definition extract (pc : PageContext) (doc : Document) : list Merge.ImageRecord :=
  Extract.extractImagesFromPage pc (candidates doc).

(** The record a candidate gives when it is the one that is added. *)
Definition rawOf (pc : PageContext) (c : Extract.Candidate) : Extract.RawRecord :=
  {| Extract.rawUrl := resolveUrl pc (Extract.src c);
     Extract.rawWidth := Extract.dimWidth c;
     Extract.rawHeight := Extract.dimHeight c;
     Extract.rawAlt := Extract.altText c;
     Extract.rawType := Extract.kind c |}.

Definition recordOf (pc : PageContext) (c : Extract.Candidate) : Merge.ImageRecord :=
  Extract.finish (rawOf pc c).

(** The first candidate that resolves to [u]. *)
Definition firstFor (pc : PageContext) (found : list Extract.Candidate)
  (u : string) : option Extract.Candidate :=
  find (fun c => String.eqb (resolveUrl pc (Extract.src c)) u) found.

(** *** The map holds the first candidate of every URL *)

Lemma find_app_first {A : Type} (p : A -> bool) (l1 l2 : list A) :
  find p (l1 ++ l2)%list
    = match find p l1 with Some x => Some x | None => find p l2 end.
Proof.
  induction l1 as [|a l1 IH]; simpl; [reflexivity|].
  destruct (p a); [reflexivity | exact IH].
Qed.

Lemma has_iff_entry (m : JsMap.t Extract.RawRecord) (k : string) :
  JsMap.has k m = true <-> exists v, In (k, v) m.
Proof.
  rewrite JsMap.has_In. unfold JsMap.keys. rewrite in_map_iff. split.
  - intros ([k' v] & E & H). simpl in E. subst k'. eauto.
  - intros [v H]. exists (k, v). auto.
Qed.

Definition holdsFirsts (pc : PageContext) (seen : list Extract.Candidate)
  (m : JsMap.t Extract.RawRecord) : Prop :=
  forall k v,
    In (k, v) m <->
    k <> "" /\ exists c, firstFor pc seen k = Some c /\ v = rawOf pc c.

Lemma holdsFirsts_step (pc : PageContext) (seen : list Extract.Candidate)
  (m : JsMap.t Extract.RawRecord) (c : Extract.Candidate) :
  holdsFirsts pc seen m ->
  holdsFirsts pc (seen ++ [c])%list (Extract.addCandidate pc m c).
Proof.
  intros Inv k v. unfold firstFor. rewrite find_app_first. simpl.
  fold (firstFor pc seen k).
  assert (Hhas : JsMap.has (resolveUrl pc (Extract.src c)) m = true ->
                 exists c', firstFor pc seen (resolveUrl pc (Extract.src c)) = Some c').
  { intro H. apply has_iff_entry in H. destruct H as [v' H].
    apply Inv in H. destruct H as (_ & c' & H & _). eauto. }
  assert (Hnone : firstFor pc seen (resolveUrl pc (Extract.src c)) = None ->
                  JsMap.has (resolveUrl pc (Extract.src c)) m = false).
  { intro H. destruct (JsMap.has _ m) eqn:E; [|reflexivity].
    destruct (Hhas eq_refl) as [c' Hc']. congruence. }
  unfold Extract.addCandidate. fold (rawOf pc c).
  set (u := resolveUrl pc (Extract.src c)) in *.
  destruct (truthy u) eqn:Et; simpl.
  - destruct (JsMap.has u m) eqn:Eh; simpl.
    + rewrite (Inv k v). split; intros (Hk & c' & Hf & Hv); split; auto.
      * exists c'. now rewrite Hf.
      * destruct (firstFor pc seen k) as [c''|] eqn:Ef; [eauto|].
        destruct (String.eqb_spec u k) as [e|]; [|discriminate].
        subst k. destruct (Hhas eq_refl) as [c'' Hc'']. congruence.
    + rewrite JsMap.set_absent by assumption. rewrite in_app_iff, (Inv k v).
      simpl. split.
      * intros [(Hk & c' & Hf & Hv)|[E|[]]].
        -- split; [assumption|]. exists c'. now rewrite Hf.
        -- inversion E; subst k v. split; [now apply truthy_nonempty|].
           exists c. split; [|reflexivity].
           destruct (firstFor pc seen u) as [c'|] eqn:Ef.
           ++ assert (X : exists v', In (u, v') m).
              { exists (rawOf pc c'). apply Inv. split; [now apply truthy_nonempty|].
                eauto. }
              apply has_iff_entry in X. congruence.
           ++ now rewrite String.eqb_refl.
      * intros (Hk & c' & Hf & Hv).
        destruct (firstFor pc seen k) as [c''|] eqn:Ef.
        -- left. split; [assumption|]. exists c'. split; [congruence | assumption].
        -- destruct (String.eqb_spec u k) as [e|]; [|discriminate].
           inversion Hf; subst. right. left. reflexivity.
  - rewrite (Inv k v). split; intros (Hk & c' & Hf & Hv); split; auto.
    + exists c'. now rewrite Hf.
    + destruct (firstFor pc seen k) as [c''|] eqn:Ef; [eauto|].
      destruct (String.eqb_spec u k) as [e|]; [|discriminate].
      subst k. apply truthy_nonempty in Hk. congruence.
Qed.

Lemma holdsFirsts_fold (pc : PageContext) (found : list Extract.Candidate) :
  forall seen m,
    holdsFirsts pc seen m ->
    holdsFirsts pc (seen ++ found)%list (fold_left (Extract.addCandidate pc) found m).
Proof.
  induction found as [|c found IH]; intros seen m H; simpl.
  - now rewrite app_nil_r.
  - replace (seen ++ c :: found)%list with ((seen ++ [c]) ++ found)%list
      by now rewrite <- app_assoc.
    apply IH. now apply holdsFirsts_step.
Qed.

(** The records of a page are the records of the first candidate of every
    non-empty resolved URL. *)
Lemma extract_characterised (pc : PageContext) (found : list Extract.Candidate)
  (r : Merge.ImageRecord) :
  In r (Extract.extractImagesFromPage pc found) <->
  Merge.url r <> "" /\
  exists c, firstFor pc found (Merge.url r) = Some c /\ r = recordOf pc c.
Proof.
  assert (Inv : holdsFirsts pc found
                  (fold_left (Extract.addCandidate pc) found JsMap.empty)).
  { apply (holdsFirsts_fold pc found [] JsMap.empty).
    intros k v. split; [intros [] | intros (_ & c & H & _); discriminate H]. }
  unfold Extract.extractImagesFromPage, JsMap.values. rewrite map_map.
  rewrite in_map_iff. split.
  - intros ([k v] & <- & H). apply Inv in H. destruct H as (Hk & c & Hf & ->).
    assert (E : resolveUrl pc (Extract.src c) = k).
    { apply find_some in Hf. now apply String.eqb_eq. }
    simpl. rewrite E. split; [assumption|]. exists c. split; [assumption | reflexivity].
  - intros (Hu & c & Hf & ->). exists (Merge.url (recordOf pc c), rawOf pc c).
    split; [reflexivity|]. apply Inv. split; [assumption|]. eauto.
Qed.

Lemma find_none_all {A : Type} (p : A -> bool) (l : list A) :
  (forall x, In x l -> p x = false) -> find p l = None.
Proof.
  induction l as [|a l IH]; simpl; intro H; [reflexivity|].
  rewrite (H a) by now left. apply IH. intros x Hx. apply H. now right.
Qed.

Lemma find_exists {A : Type} (p : A -> bool) (l : list A) (x : A) :
  In x l -> p x = true -> exists y, find p l = Some y /\ In y l /\ p y = true.
Proof.
  induction l as [|a l IH]; simpl; intros Hx Hp; [contradiction|].
  destruct (p a) eqn:E.
  - exists a. auto.
  - destruct Hx as [->|Hx]; [congruence|].
    destruct (IH Hx Hp) as (y & Hf & Hy & Hpy). exists y. auto.
Qed.

(** X1.  Within one page the first source that resolves to a URL makes the
    record of that URL: a candidate with a non-empty resolved URL that no
    earlier candidate resolves to is in the result with its own fields, and
    no later candidate replaces it. *)
Theorem extract_first_occurrence_wins (pc : PageContext)
  (pre post : list Extract.Candidate) (c : Extract.Candidate) :
  resolveUrl pc (Extract.src c) <> "" ->
  (forall c', In c' pre ->
     resolveUrl pc (Extract.src c') <> resolveUrl pc (Extract.src c)) ->
  In (recordOf pc c) (Extract.extractImagesFromPage pc (pre ++ c :: post)) /\
  (forall r, In r (Extract.extractImagesFromPage pc (pre ++ c :: post)) ->
     Merge.url r = resolveUrl pc (Extract.src c) -> r = recordOf pc c).
Proof.
  intros Hne Hpre.
  assert (Hf : firstFor pc (pre ++ c :: post) (resolveUrl pc (Extract.src c))
               = Some c).
  { unfold firstFor. rewrite find_app_first, find_none_all.
    - simpl. now rewrite String.eqb_refl.
    - intros c' Hc'. apply String.eqb_neq. now apply Hpre. }
  split.
  - apply extract_characterised. split; [exact Hne|]. exists c. auto.
  - intros r Hr Hu. apply extract_characterised in Hr.
    destruct Hr as (_ & c' & Hf' & ->). rewrite Hu in Hf'. congruence.
Qed.

Definition plainCandidate (s k : string) : Extract.Candidate :=
  candidate s (Some "640") (Some "480") "No alt text" k.

Lemma extract_first_occurrence_wins_witness :
  resolveUrl galleryPage "a.jpg" <> "" /\
  In (recordOf galleryPage (plainCandidate "a.jpg" "img"))
     (Extract.extractImagesFromPage galleryPage
        ([plainCandidate "b.jpg" "img"]
         ++ plainCandidate "a.jpg" "img" :: [plainCandidate "a.jpg" "svg"])).
Proof.
  split; [discriminate|].
  apply (extract_first_occurrence_wins galleryPage
           [plainCandidate "b.jpg" "img"] [plainCandidate "a.jpg" "svg"]
           (plainCandidate "a.jpg" "img")).
  - discriminate.
  - intros c' [<-|[]]. discriminate.
Defined.

(** *** What every record of a document looks like *)

Definition kinds : list string := ["img"; "source"; "background"; "svg"].

Definition candidateOk (c : Extract.Candidate) : Prop :=
  Extract.altText c <> "" /\ In (Extract.kind c) kinds /\
  (Extract.kind c = "source" ->
   Extract.dimWidth c = None /\ Extract.dimHeight c = None).

Lemma orElse_nonempty (a b : string) : b <> "" -> orElse a b <> "".
Proof.
  intro H. unfold orElse. destruct (truthy a) eqn:E; [|exact H].
  now apply truthy_nonempty.
Qed.

Lemma Forall_flat_map {A B : Type} (P : B -> Prop) (f : A -> list B) (l : list A) :
  (forall a, Forall P (f a)) -> Forall P (flat_map f l).
Proof.
  intro H. induction l as [|a l IH]; simpl; [constructor|].
  apply Forall_app. split; [apply H | exact IH].
Qed.

Lemma imgCandidates_kind (img : ImgElement) :
  Forall (fun c => candidateOk c /\ Extract.kind c = "img") (imgCandidates img).
Proof.
  unfold imgCandidates. apply Forall_map, Forall_forall. intros s _.
  unfold candidateOk, kinds. simpl. repeat split; try discriminate; auto.
  apply orElse_nonempty, orElse_nonempty. discriminate.
Qed.

Lemma candidates_ok (doc : Document) : Forall candidateOk (candidates doc).
Proof.
  unfold candidates. repeat (apply Forall_app; split); apply Forall_flat_map.
  - intro img. eapply Forall_impl; [|apply imgCandidates_kind]. now intros c [H _].
  - intro s. unfold sourceCandidates. destruct (truthy _); [|constructor].
    apply Forall_map, Forall_forall. intros u _.
    unfold candidateOk, kinds. simpl. repeat split; try discriminate; auto.
  - intro e. unfold backgroundCandidates. destruct (_ && _); [|constructor].
    apply Forall_map, Forall_forall. intros u _.
    unfold candidateOk, kinds. simpl. repeat split; try discriminate; auto.
    apply orElse_nonempty. discriminate.
  - intro s. unfold svgCandidates. destruct (truthy _); [|constructor].
    constructor; [|constructor].
    unfold candidateOk, kinds. simpl. repeat split; try discriminate; auto.
Qed.

(** X2.  Every record extracted from a document has a non-empty URL that
    no other record has, a non-empty alt text and one of the four types;
    a record of type source has the Natural marker for both dimensions. *)
Theorem extract_records_well_formed (pc : PageContext) (doc : Document) :
  NoDup (map Merge.url (extract pc doc)) /\
  (forall r, In r (extract pc doc) ->
     Merge.url r <> "" /\ Merge.alt r <> "" /\ In (Merge.type r) kinds /\
     (Merge.type r = "source" ->
      Merge.width r = "Natural" /\ Merge.height r = "Natural")).
Proof.
  split; [apply Extract.extractImagesFromPage_record_set|].
  intros r Hr. apply extract_characterised in Hr.
  destruct Hr as (Hu & c & Hf & ->). split; [exact Hu|].
  apply find_some in Hf. destruct Hf as [Hc _].
  pose proof (candidates_ok doc) as Hok. rewrite Forall_forall in Hok.
  destruct (Hok c Hc) as (Ha & Hk & Hs). simpl.
  split; [exact Ha|]. split; [exact Hk|].
  intro E. destruct (Hs E) as [-> ->]. auto.
Qed.

(** X3.  The img loop runs first: a URL that a source of some img element
    resolves to is recorded with type img, whatever source elements,
    backgrounds or SVG images resolve to the same URL. *)
Theorem extract_img_precedence (pc : PageContext) (doc : Document)
  (img : ImgElement) (s : string) :
  In img (imgs doc) -> In s (imgSources img) -> resolveUrl pc s <> "" ->
  (exists r, In r (extract pc doc) /\ Merge.url r = resolveUrl pc s) /\
  (forall r, In r (extract pc doc) -> Merge.url r = resolveUrl pc s ->
     Merge.type r = "img").
Proof.
  intros Hi Hs Hne.
  set (p := fun c => String.eqb (resolveUrl pc (Extract.src c)) (resolveUrl pc s)).
  assert (Hc : exists c, In c (flat_map imgCandidates (imgs doc)) /\ p c = true).
  { exists (candidate s
              (dimension [naturalWidth img; imgWidth img; imgRectWidth img])
              (dimension [naturalHeight img; imgHeight img; imgRectHeight img])
              (orElse (imgAlt img) (orElse (imgTitle img) "No alt text")) "img").
    split; [|apply String.eqb_refl].
    apply in_flat_map. exists img. split; [exact Hi|].
    unfold imgCandidates. apply in_map_iff. eauto. }
  destruct Hc as (c & Hc & Hp).
  destruct (find_exists p _ c Hc Hp) as (y & Hf & Hy & Hpy).
  assert (Hfirst : firstFor pc (candidates doc) (resolveUrl pc s) = Some y).
  { unfold firstFor, candidates. rewrite find_app_first. fold p. now rewrite Hf. }
  assert (Hk : Extract.kind y = "img").
  { apply in_flat_map in Hy. destruct Hy as (img' & _ & Hy).
    pose proof (imgCandidates_kind img') as F. rewrite Forall_forall in F.
    now apply F. }
  assert (Ey : resolveUrl pc (Extract.src y) = resolveUrl pc s)
    by now apply String.eqb_eq.
  split.
  - exists (recordOf pc y). split; [|exact Ey].
    apply extract_characterised. simpl. rewrite Ey.
    split; [exact Hne|]. exists y. auto.
  - intros r Hr Hu. apply extract_characterised in Hr.
    destruct Hr as (_ & c' & Hf' & ->). rewrite Hu in Hf'.
    unfold extract in *. rewrite Hfirst in Hf'. inversion Hf'; subst c'.
    exact Hk.
Qed.

(** An img element that has only a srcset attribute. *)
Definition srcsetOnly (srcset : string) : ImgElement := {|
  imgSrc := ""; datasetSrc := ""; datasetLazySrc := ""; datasetOriginal := "";
  datasetLazyOriginal := ""; attrDataSrc := ""; attrDataLazySrc := "";
  currentSrc := ""; imgSrcset := srcset;
  naturalWidth := 0; naturalHeight := 0; imgWidth := 0; imgHeight := 0;
  imgRectWidth := 0; imgRectHeight := 0; imgAlt := ""; imgTitle := ""
|}.

Definition pictureDoc : Document := {|
  imgs := [srcsetOnly "a.jpg 1x, b.jpg 2x"];
  sources := [{| sourceSrcset := "a.jpg"; sourceSrc := "" |}];
  elements := [];
  svgImages := []
|}.

Lemma extract_img_precedence_witness :
  In (srcsetOnly "a.jpg 1x, b.jpg 2x") (imgs pictureDoc) /\
  In "a.jpg" (imgSources (srcsetOnly "a.jpg 1x, b.jpg 2x")) /\
  resolveUrl galleryPage "a.jpg" <> "" /\
  (forall r, In r (extract galleryPage pictureDoc) ->
     Merge.url r = resolveUrl galleryPage "a.jpg" -> Merge.type r = "img").
Proof.
  assert (H1 : In (srcsetOnly "a.jpg 1x, b.jpg 2x") (imgs pictureDoc)) by now left.
  assert (H2 : In "a.jpg" (imgSources (srcsetOnly "a.jpg 1x, b.jpg 2x"))) by now left.
  assert (H3 : resolveUrl galleryPage "a.jpg" <> "") by discriminate.
  split; [exact H1|]. split; [exact H2|]. split; [exact H3|].
  exact (proj2 (extract_img_precedence galleryPage pictureDoc _ "a.jpg" H1 H2 H3)).
Defined.

Lemma join_head_nonempty (sep p : string) (rest : list string) :
  p <> "" -> join sep (p :: rest) <> "".
Proof.
  destruct p as [|c p]; [contradiction|]. intros _.
  destruct rest; simpl; discriminate.
Qed.

Lemma srcsetItem_nonempty (entry : string * string) :
  wellFormedEntry entry -> srcsetItem entry <> "".
Proof.
  intros (Hne & _). unfold srcsetItem.
  destruct (fst entry) as [|c u]; [contradiction|].
  destruct (truthy (snd entry)); simpl; discriminate.
Qed.

(** X4.  For an img element whose srcset lists URLs with optional
    descriptors, separated by a comma and a blank, the sources taken from
    the srcset are exactly those URLs, in order, behind the non-empty ones
    of the eight source properties. *)
Theorem imgSources_srcset (img : ImgElement) (entries : list (string * string)) :
  Forall wellFormedEntry entries ->
  imgSrcset img = renderSrcset entries ->
  imgSources img
    = (filter truthy
         [imgSrc img; datasetSrc img; datasetLazySrc img; datasetOriginal img;
          datasetLazyOriginal img; attrDataSrc img; attrDataLazySrc img;
          currentSrc img]
       ++ map fst entries)%list.
Proof.
  intros Hw Hs. unfold imgSources. f_equal. rewrite Hs.
  destruct entries as [|e entries]; [reflexivity|].
  assert (Ht : truthy (renderSrcset (e :: entries)) = true).
  { apply truthy_nonempty. unfold renderSrcset. simpl map.
    apply join_head_nonempty, srcsetItem_nonempty. now inversion Hw. }
  rewrite Ht, srcsetSources_render by (discriminate || assumption).
  clear Ht Hs. induction Hw as [|x l (Hne & _) _ IH]; [reflexivity|].
  simpl. apply truthy_nonempty in Hne. now rewrite Hne, IH.
Qed.

Lemma imgSources_srcset_witness :
  Forall wellFormedEntry [("a.jpg", "1x"); ("b.jpg", "2x")] /\
  imgSources (srcsetOnly "a.jpg 1x, b.jpg 2x") = ["a.jpg"; "b.jpg"].
Proof.
  assert (H : Forall wellFormedEntry [("a.jpg", "1x"); ("b.jpg", "2x")]).
  { repeat constructor; discriminate. }
  split; [exact H|].
  exact (imgSources_srcset (srcsetOnly "a.jpg 1x, b.jpg 2x")
           [("a.jpg", "1x"); ("b.jpg", "2x")] H eq_refl).
Defined.

(** X5.  Whatever the srcset attribute holds, no source taken from it
    contains a comma or a blank: a URL with a comma in it (a data: URI, for
    one) is never passed on whole. *)
Theorem srcsetSources_clean (srcset : string) :
  Forall (fun s => Regex.all (Regex.notChar ",") s = true /\
                   Regex.all (Regex.notChar " ") s = true)
         (srcsetSources srcset).
Proof.
  unfold srcsetSources. apply Forall_map.
  eapply Forall_impl; [|apply (splitOn_no_sep "," srcset)].
  intros item Hitem. unfold firstToken.
  apply (nth0_Forall
           (fun s => Regex.all (Regex.notChar ",") s = true /\
                     Regex.all (Regex.notChar " ") s = true));
    [apply splitOn_not_nil|].
  pose proof (splitOn_all (Regex.notChar ",") " " (trim item)
                (trim_all _ _ Hitem)) as H1.
  pose proof (splitOn_no_sep " " (trim item)) as H2.
  rewrite Forall_forall in *. intros x Hx. split; [now apply H1 | now apply H2].
Qed.

End Page.

(** ** The scroll to the bottom (part_000 lines 201-215 and 236-250)

    The interval callback reads [document.body.scrollHeight], scrolls by
    100 pixels, adds 100 to [totalHeight] and resolves the promise once
    [totalHeight] has reached the height it read.  The page is the oracle
    [heightAt]: the scroll height the k-th run of the callback reads. *)

Module Scroll.

Definition distance : Z := 100.

(** The runs of the callback from the k-th on, at most [fuel] of them: the
    number of runs after which the promise resolved, if it did. *)
Fixpoint ticks (heightAt : nat -> Z) (fuel k : nat) (totalHeight : Z)
  : option nat :=
  match fuel with
  | O => None
  | S fuel' =>
      let scrollHeight := heightAt k in
      let totalHeight' := totalHeight + distance in
      if totalHeight' >=? scrollHeight then Some (S k)
      else ticks heightAt fuel' (S k) totalHeight'
  end.

Definition scrollToBottom (heightAt : nat -> Z) (fuel : nat) : option nat :=
  ticks heightAt fuel 0 0.

(** *** When the promise resolves *)

Lemma ticks_resolved (heightAt : nat -> Z) (fuel : nat) :
  forall k n,
    ticks heightAt fuel k (distance * Z.of_nat k) = Some n ->
    (k < n <= k + fuel)%nat /\
    heightAt (n - 1)%nat <= distance * Z.of_nat n /\
    (forall j, (k <= j < n - 1)%nat -> distance * Z.of_nat (S j) < heightAt j).
Proof.
  induction fuel as [|fuel IH]; intros k n H; cbn [ticks] in H; [discriminate|].
  assert (Es : distance * Z.of_nat k + distance = distance * Z.of_nat (S k))
    by (unfold distance; lia).
  rewrite Es, Z.geb_leb in H.
  destruct (Z.leb_spec (heightAt k) (distance * Z.of_nat (S k))) as [E|E].
  - inversion H; subst. replace (S k - 1)%nat with k by lia.
    repeat split; try lia.
  - destruct (IH _ _ H) as (Hn & Hh & Hj). repeat split; try lia.
    intros j Hjr. destruct (Nat.eq_dec j k) as [->|Hne]; [lia|].
    apply Hj. lia.
Qed.

Lemma ticks_reaches (heightAt : nat -> Z) (fuel : nat) :
  forall k j,
    (k <= j < k + fuel)%nat -> heightAt j <= distance * Z.of_nat (S j) ->
    exists n, ticks heightAt fuel k (distance * Z.of_nat k) = Some n /\ (n <= S j)%nat.
Proof.
  induction fuel as [|fuel IH]; intros k j Hj Hh; [lia|]. cbn [ticks].
  assert (Es : distance * Z.of_nat k + distance = distance * Z.of_nat (S k))
    by (unfold distance; lia).
  rewrite Es, Z.geb_leb.
  destruct (Z.leb_spec (heightAt k) (distance * Z.of_nat (S k))) as [E|E].
  - exists (S k). split; [reflexivity | lia].
  - destruct (Nat.eq_dec j k) as [->|Hne]; [lia|].
    destruct (IH (S k) j) as (n & Hn & Hle); [lia | exact Hh|].
    exists n. split; [exact Hn | lia].
Qed.

Lemma ticks_start (heightAt : nat -> Z) (fuel : nat) :
  scrollToBottom heightAt fuel = ticks heightAt fuel 0 (distance * Z.of_nat 0).
Proof. reflexivity. Qed.

(** X8.  On a page whose scroll height never exceeds 100 * N pixels
    (N >= 1) the promise resolves after at most N runs of the callback and
    at least one, with the distance scrolled no less than the height read
    last. *)
Theorem scrollToBottom_bounded (heightAt : nat -> Z) (N fuel : nat) :
  (1 <= N <= fuel)%nat ->
  (forall k, heightAt k <= distance * Z.of_nat N) ->
  exists n,
    scrollToBottom heightAt fuel = Some n /\ (1 <= n <= N)%nat /\
    heightAt (n - 1)%nat <= distance * Z.of_nat n.
Proof.
  intros HN Hb. rewrite ticks_start.
  destruct (ticks_reaches heightAt fuel 0 (N - 1)%nat) as (n & Hn & Hle).
  - lia.
  - replace (S (N - 1)) with N by lia. apply Hb.
  - exists n. split; [exact Hn|].
    destruct (ticks_resolved heightAt fuel 0 n Hn) as (H1 & H2 & _).
    split; [lia | exact H2].
Qed.

Lemma scrollToBottom_bounded_witness :
  (1 <= 25 <= 30)%nat /\
  (forall k : nat, (fun _ => 2400) k <= distance * Z.of_nat 25) /\
  exists n, scrollToBottom (fun _ => 2400) 30 = Some n /\ (1 <= n <= 25)%nat.
Proof.
  assert (H1 : (1 <= 25 <= 30)%nat) by lia.
  assert (H2 : forall k : nat, (fun _ => 2400) k <= distance * Z.of_nat 25).
  { intro k. unfold distance. simpl. lia. }
  split; [exact H1|]. split; [exact H2|].
  destruct (scrollToBottom_bounded (fun _ => 2400) 25 30 H1 H2) as (n & Hn & Hr & _).
  exists n. split; [exact Hn | exact Hr].
Defined.

(** X9.  On a page that grows by more than the scrolled distance at every
    run (an endless feed), the promise is not resolved after any number of
    runs. *)
Theorem scrollToBottom_endless (heightAt : nat -> Z) :
  (forall k, distance * Z.of_nat (S k) < heightAt k) ->
  forall fuel, scrollToBottom heightAt fuel = None.
Proof.
  intros Hg fuel. rewrite ticks_start.
  destruct (ticks heightAt fuel 0 (distance * Z.of_nat 0)) as [n|] eqn:E;
    [|reflexivity]. exfalso.
  destruct (ticks_resolved heightAt fuel 0 n E) as (H1 & H2 & _).
  specialize (Hg (n - 1)%nat). replace (S (n - 1)) with n in Hg by lia. lia.
Qed.

Lemma scrollToBottom_endless_witness :
  (forall k : nat, distance * Z.of_nat (S k)
                   < (fun k => 1000 + 200 * Z.of_nat k) k) /\
  scrollToBottom (fun k => 1000 + 200 * Z.of_nat k) 600 = None.
Proof.
  assert (H : forall k : nat, distance * Z.of_nat (S k)
                              < (fun k => 1000 + 200 * Z.of_nat k) k).
  { intro k. unfold distance. lia. }
  split; [exact H|].
  exact (scrollToBottom_endless (fun k => 1000 + 200 * Z.of_nat k) H 600).
Defined.

End Scroll.

(** ** The request handler on all of its paths (part_000 lines 171-359) *)

Module HandlerPaths.

Import Probe Handler.

Definition allSteps : list Step :=
  (GetBrowser :: renderSteps Desktop ++ renderSteps Mobile)%list.

Lemma withSize_url (img : Merge.ImageRecord) (fields : string * Size.jsnum) :
  url (withSize img fields) = Merge.url img.
Proof. reflexivity. Qed.

Lemma probe_url (pf : Platform) (img : Merge.ImageRecord) (s : SizedImageRecord) :
  probe pf img = Returned s -> url s = Merge.url img.
Proof.
  unfold probe. destruct (measure pf img); intro H; inversion H; reflexivity.
Qed.

Lemma probes_urls (pf : Platform) (images : list Merge.ImageRecord)
  (sized : list SizedImageRecord) :
  Forall2 (fun img s => probe pf img = Returned s) images sized ->
  map url sized = map Merge.url images.
Proof.
  induction 1 as [|img s images sized H _ IH]; simpl; [reflexivity|].
  now rewrite (probe_url _ _ _ H), IH.
Qed.

(** X10.  When no awaited browser call rejects, the handler answers 200
    with one sized record per distinct URL of the two extraction results,
    in the order of the merge (desktop first), each the probe of its image,
    with [count] their number, and leaves both pages closed. *)
Theorem scrape_success (env : Env) (requestUrl : string) :
  truthy requestUrl = true ->
  closesResolve env ->
  firstFault (fault env) allSteps = None ->
  exists sized,
    scrape env requestUrl initial
      = (Returned tt,
         {| desktopPage := Closed; mobilePage := Closed;
            sent := [Json200 sized (Z.of_nat (length sized))] |}) /\
    Forall2 (fun img s => probe (platform env) img = Returned s)
            (fst (Merge.mergeViewports (desktopDom env) (mobileDom env))) sized /\
    map url sized
      = map Merge.url (fst (Merge.mergeViewports (desktopDom env) (mobileDom env))) /\
    NoDup (map url sized).
Proof.
  intros Hu Hc Hf. pose proof (Hc Desktop) as Hcd. pose proof (Hc Mobile) as Hcm.
  destruct (imagesWithSizes_fulfilled (platform env)
              (fst (Merge.mergeViewports (desktopDom env) (mobileDom env))))
    as (sized & Hs & F).
  exists sized. pose proof (probes_urls _ _ _ F) as Hurls.
  split; [|split; [exact F | split; [exact Hurls|]]].
  - unfold allSteps in Hf. simpl in Hf. run_handler. rewrite Hu. simpl.
    repeat (next_fault env; [discriminate Hf|]; rewrite ?Hcd, ?Hcm; simpl).
    rewrite Hs. reflexivity.
  - rewrite Hurls. apply Merge.mergeViewports_urls_NoDup.
Qed.

(** A request that meets no failure at all. *)
Definition calm : Env := {|
  fault := fun _ => None;
  desktopDom := [Merge.recA; Merge.recB];
  mobileDom := [Merge.recB_mobile; Merge.recC];
  platform := goodHost;
  recloseRejects := true
|}.

Lemma scrape_success_witness :
  truthy "https://example.com/" = true /\
  closesResolve calm /\
  firstFault (fault calm) allSteps = None /\
  exists sized,
    scrape calm "https://example.com/" initial
      = (Returned tt,
         {| desktopPage := Closed; mobilePage := Closed;
            sent := [Json200 sized (Z.of_nat (length sized))] |}) /\
    map url sized
      = ["https://example.com/a.png"; "https://example.com/b.png";
         "https://example.com/c.png"].
Proof.
  assert (H2 : closesResolve calm) by (intro v; reflexivity).
  split; [reflexivity|]. split; [exact H2|]. split; [reflexivity|].
  destruct (scrape_success calm "https://example.com/" eq_refl H2 eq_refl)
    as (sized & E & _ & Hurls & _).
  exists sized. split; [exact E | exact Hurls].
Defined.

(** X11.  Whatever fails, the handler never answers twice: it ends having
    sent exactly one response, or, when the cleanup of its catch block
    rejects, none; and without a URL in the request the one response is the
    400 and no page is opened. *)
Theorem scrape_answers_once (env : Env) (requestUrl : string) :
  (match fst (scrape env requestUrl initial) with
   | Returned _ => exists r, sent (snd (scrape env requestUrl initial)) = [r]
   | Thrown _ => sent (snd (scrape env requestUrl initial)) = []
   end) /\
  (truthy requestUrl = false ->
   scrape env requestUrl initial
     = (Returned tt,
        {| desktopPage := NotOpened; mobilePage := NotOpened;
           sent := [JsonError 400 "URL is required"] |})).
Proof.
  split.
  - destruct (imagesWithSizes_fulfilled (platform env)
                (fst (Merge.mergeViewports (desktopDom env) (mobileDom env))))
      as (sized & Hs & _).
    run_handler. destruct (truthy requestUrl); simpl; [|eauto].
    destruct (recloseRejects env);
      repeat (next_fault env; simpl; eauto);
      rewrite ?Hs; simpl; eauto.
  - intro Hu. run_handler. now rewrite Hu.
Qed.

End HandlerPaths.

(** ** Reading back a content-length header (part_000 lines 300-301) *)

Module ContentLength.

Import Size Probe.

Lemma readDigits_acc (d : Decimal.uint) :
  forall acc : positive,
    readDigits 10 (Some (Z.pos acc)) (NilEmpty.string_of_uint d)
      = Some (Z.pos (Pos.of_uint_acc d acc)).
Proof.
  induction d; intro acc;
    cbn [NilEmpty.string_of_uint readDigits Pos.of_uint_acc];
    [reflexivity | ..];
    match goal with
    | |- context [digitValue 10 ?c] =>
        let v := eval vm_compute in (digitValue 10 c) in
        change (digitValue 10 c) with v; cbv iota beta
    end;
    rewrite <- IHd; f_equal; f_equal; lia.
Qed.

Lemma readDigits_from_zero (d : Decimal.uint) :
  readDigits 10 (Some 0) (NilEmpty.string_of_uint d)
    = Some (Z.of_N (Pos.of_uint d)).
Proof.
  induction d;
    cbn [NilEmpty.string_of_uint readDigits Pos.of_uint];
    [reflexivity | ..];
    match goal with
    | |- context [digitValue 10 ?c] =>
        let v := eval vm_compute in (digitValue 10 c) in
        change (digitValue 10 c) with v; cbv iota beta
    end;
    [exact IHd | ..];
    match goal with
    | |- readDigits 10 (Some ?a) _ = _ =>
        let v := eval vm_compute in a in
        change a with v
    end;
    rewrite readDigits_acc; reflexivity.
Qed.

Lemma readDigits_start (d : Decimal.uint) :
  d <> Decimal.Nil ->
  readDigits 10 None (NilEmpty.string_of_uint d)
    = readDigits 10 (Some 0) (NilEmpty.string_of_uint d).
Proof. destruct d; [contradiction | reflexivity ..]. Qed.

Lemma string_of_uint_nonempty (d : Decimal.uint) :
  d <> Decimal.Nil -> NilEmpty.string_of_uint d <> "".
Proof. destruct d; simpl; intro H; try discriminate. contradiction. Qed.

(** Before the digits of a printed number [parseInt] finds no white
    space, no sign and no 0x prefix. *)
Lemma parseInt_printed (d : Decimal.uint) :
  parseInt (NilEmpty.string_of_uint d)
    = match readDigits 10 None (NilEmpty.string_of_uint d) with
      | Some v => Num (1 * toDouble v)
      | None => NaN
      end.
Proof.
  destruct d as [|d|d|d|d|d|d|d|d|d|d]; try reflexivity.
  destruct d; reflexivity.
Qed.

(** [parseInt] reads back what printing a non-negative integer below 2^53
    wrote. *)
Lemma parseInt_decimal (z : Z) :
  0 <= z < 9007199254740992 -> parseInt (decimal z) = Num z.
Proof.
  intro Hz. unfold decimal.
  assert (Hn : N.to_uint (Z.to_N z) <> Decimal.Nil).
  { destruct (Z.to_N z); simpl; [discriminate|].
    apply DecimalPos.Unsigned.to_uint_nonnil. }
  assert (E : NilZero.string_of_uint (N.to_uint (Z.to_N z))
              = NilEmpty.string_of_uint (N.to_uint (Z.to_N z))).
  { destruct (N.to_uint (Z.to_N z)); try reflexivity. contradiction. }
  rewrite E, parseInt_printed.
  rewrite readDigits_start by assumption.
  rewrite readDigits_from_zero.
  change (Pos.of_uint (N.to_uint (Z.to_N z))) with (N.of_uint (N.to_uint (Z.to_N z))).
  rewrite DecimalN.Unsigned.of_to. f_equal.
  rewrite toDouble_exact by lia. lia.
Qed.

Lemma decimal_nonempty (z : Z) : decimal z <> "".
Proof.
  unfold decimal. destruct (N.to_uint (Z.to_N z)); simpl; discriminate.
Qed.

(** X12.  When the HEAD answer has status 200 and a content-length that
    is the decimal print of a byte count below 2^53, the size is the one
    assigned from the HEAD answer: the record carries exactly that count
    and its display. *)
Theorem head_content_length_read_back (pf : Platform) (img : Merge.ImageRecord)
  (response : HttpResponse) (n : Z) :
  startsWith (Merge.url img) "data:" = false ->
  wireHead pf (Merge.url img) = Returned response ->
  status response = 200 ->
  contentLength response = Some (decimal n) ->
  0 <= n < 9007199254740992 ->
  measure pf img = Returned (Assigned ByHead (Num n)) /\
  probe pf img = Returned (withSize img (sizeFields (Num n))) /\
  fileSizeBytes (withSize img (sizeFields (Num n))) = Num n.
Proof.
  intros Hd Hw Hs Hc Hn.
  assert (E : headSize pf (Merge.url img) = Returned (Num n)).
  { apply headSize_Returned. exists response, (decimal n).
    repeat split; auto using decimal_nonempty.
    symmetry. now apply parseInt_decimal. }
  assert (M : measure pf img = Returned (Assigned ByHead (Num n))).
  { unfold measure, networkSize. now rewrite Hd, E. }
  split; [exact M|]. split.
  - unfold probe. now rewrite M.
  - apply snd_sizeFields.
Qed.

(** A server whose HEAD answer counts 2,621,440 bytes. *)
Definition bigFileHost : Platform := {|
  wireHead := fun _ =>
    Returned {| status := 200; contentLength := Some "2621440"; byteLength := 0 |};
  wireGet := fun _ => Thrown "socket hang up";
  decodeURIComponent := decodeAscii
|}.

Lemma head_content_length_read_back_witness :
  startsWith (Merge.url (imageAt "https://example.com/a.png")) "data:" = false /\
  0 <= 2621440 < 9007199254740992 /\
  probe bigFileHost (imageAt "https://example.com/a.png")
    = Returned (withSize (imageAt "https://example.com/a.png")
                  ("2.50 MB", Num 2621440)).
Proof.
  split; [reflexivity|]. split; [lia|].
  exact (proj1 (proj2
    (head_content_length_read_back bigFileHost (imageAt "https://example.com/a.png")
       {| status := 200; contentLength := Some "2621440"; byteLength := 0 |}
       2621440 eq_refl eq_refl eq_refl eq_refl ltac:(lia)))).
Defined.

End ContentLength.

(** ** The results page (public/app.js)

    The rows of the table are the records of the response after the JSON
    round trip: strings come back as they were, a byte count that was NaN
    comes back as null. *)

Module Frontend.

Import Size.

(** A number read from JSON: an integer or null. *)
Inductive jsonNum : Type :=
| JNull
| JNum (z : Z).

(** [JSON.parse(JSON.stringify(n))] *)
Definition toJson (n : jsnum) : jsonNum :=
  match n with
  | NaN => JNull
  | Num z => JNum z
  end.

(** The number an operand stands for in a comparison or a subtraction:
    null counts as 0. *)
Definition toNumber (n : jsonNum) : Z :=
  match n with
  | JNull => 0
  | JNum z => z
  end.

(** [n === 0] *)
Definition strictZero (n : jsonNum) : bool :=
  match n with
  | JNull => false
  | JNum z => z =? 0
  end.

Record Row : Type := {
  url : string;
  width : string;
  height : string;
  alt : string;
  type : string;
  fileSize : string;
  fileSizeBytes : jsonNum
}.

Definition fromServer (s : Probe.SizedImageRecord) : Row :=
  {| url := Probe.url s; width := Probe.width s; height := Probe.height s;
     alt := Probe.alt s; type := Probe.type s; fileSize := Probe.fileSize s;
     fileSizeBytes := toJson (Probe.fileSizeBytes s) |}.

(** *** [filterImages] (app.js lines 53-72) *)

(** The callback given to [imagesData.filter]. *)
Definition keeps (filter : string) (img : Row) : bool :=
  let bytes := toNumber (fileSizeBytes img) in
  if String.eqb filter "large" then bytes >? 500 * 1024
  else if String.eqb filter "medium"
       then (bytes >=? 100 * 1024) && (bytes <=? 500 * 1024)
  else if String.eqb filter "small" then (bytes >? 0) && (bytes <? 100 * 1024)
  else if String.eqb filter "unknown" then strictZero (fileSizeBytes img)
  else true.

Definition filterImages (filter : string) (imagesData : list Row) : list Row :=
  if String.eqb filter "all" then imagesData
  else List.filter (keeps filter) imagesData.

(** *** [Array.prototype.sort] and [sortByFileSize] (app.js lines 74-76)

    The sort of an array is stable, and with a comparator that orders its
    arguments consistently its result does not depend on the algorithm;
    the model is the insertion sort that puts each element behind the
    elements the comparator places strictly before it. *)

Fixpoint insertBy {A : Type} (compareFn : A -> A -> Z) (x : A) (l : list A)
  : list A :=
  match l with
  | [] => [x]
  | y :: l' =>
      if compareFn y x <? 0 then y :: insertBy compareFn x l'
      else x :: y :: l'
  end.

Definition jsSort {A : Type} (compareFn : A -> A -> Z) (l : list A) : list A :=
  fold_right (insertBy compareFn) [] l.

Definition bytesOf (img : Row) : Z := toNumber (fileSizeBytes img).

(** [filteredData.sort((a, b) => b.fileSizeBytes - a.fileSizeBytes)] *)
Definition sortByFileSize (filteredData : list Row) : list Row :=
  jsSort (fun a b => bytesOf b - bytesOf a) filteredData.

(** *** Facts about the filters *)

Definition classes : list string := ["large"; "medium"; "small"; "unknown"].

(** A row whose byte count is a non-negative integer. *)
Definition sized (img : Row) : Prop :=
  exists b, fileSizeBytes img = JNum b /\ 0 <= b.

Lemma keeps_exactly_one (img : Row) :
  sized img ->
  (keeps "large" img = true /\ keeps "medium" img = false /\
   keeps "small" img = false /\ keeps "unknown" img = false) \/
  (keeps "large" img = false /\ keeps "medium" img = true /\
   keeps "small" img = false /\ keeps "unknown" img = false) \/
  (keeps "large" img = false /\ keeps "medium" img = false /\
   keeps "small" img = true /\ keeps "unknown" img = false) \/
  (keeps "large" img = false /\ keeps "medium" img = false /\
   keeps "small" img = false /\ keeps "unknown" img = true).
Proof.
  intros (b & E & Hb). unfold keeps. rewrite E. simpl.
  assert (C : 512000 < b \/ 102400 <= b <= 512000 \/ 0 < b < 102400 \/ b = 0) by lia.
  destruct C as [C|[C|[C|C]]].
  - left. repeat split; lia.
  - right; left. repeat split; lia.
  - right; right; left. repeat split; lia.
  - right; right; right. repeat split; lia.
Qed.

(** X13.  The four size filters split the rows whose byte count is a
    non-negative integer between them: laid end to end, the large, medium,
    small and unknown selections are a rearrangement of the rows, and every
    row is kept by exactly one of the four. *)
Theorem filterImages_partition (imagesData : list Row) :
  Forall sized imagesData ->
  Permutation
    (filterImages "large" imagesData ++ filterImages "medium" imagesData
     ++ filterImages "small" imagesData ++ filterImages "unknown" imagesData)%list
    imagesData /\
  (forall img, In img imagesData ->
     exists c, In c classes /\ keeps c img = true /\
               forall c', In c' classes -> keeps c' img = true -> c' = c).
Proof.
  intro H. split.
  - unfold filterImages. simpl.
    induction H as [|img l Hs _ IH]; [constructor|]. simpl.
    destruct (keeps_exactly_one img Hs) as [C|[C|[C|C]]];
      destruct C as (-> & -> & -> & ->).
    + simpl. now constructor.
    + symmetry. apply Permutation_cons_app. now symmetry.
    + symmetry. rewrite app_assoc. apply Permutation_cons_app.
      rewrite <- app_assoc. now symmetry.
    + symmetry. rewrite !app_assoc. apply Permutation_cons_app.
      rewrite <- !app_assoc. now symmetry.
  - intros img Hi. rewrite Forall_forall in H. specialize (H img Hi).
    unfold classes.
    destruct (keeps_exactly_one img H) as [C|[C|[C|C]]];
      destruct C as (C1 & C2 & C3 & C4);
      [exists "large" | exists "medium" | exists "small" | exists "unknown"];
      (split; [simpl; tauto|]); (split; [assumption|]);
      intros c' [<-|[<-|[<-|[<-|[]]]]] Hk; congruence.
Qed.

Definition sampleRow (name : string) (bytes : jsonNum) (shown : string) : Row :=
  {| url := "https://example.com/" ++ name; width := "640px"; height := "480px";
     alt := name; type := "img"; fileSize := shown; fileSizeBytes := bytes |}.

Definition sampleRows : list Row :=
  [sampleRow "logo.png" (JNum 48213) "47.08 KB";
   sampleRow "hero.jpg" (JNum 2621440) "2.50 MB";
   sampleRow "pixel.gif" (JNum 0) "Unknown";
   sampleRow "banner.png" (JNum 204800) "200.00 KB"].

Lemma filterImages_partition_witness :
  Forall sized sampleRows /\
  Permutation
    (filterImages "large" sampleRows ++ filterImages "medium" sampleRows
     ++ filterImages "small" sampleRows ++ filterImages "unknown" sampleRows)%list
    sampleRows.
Proof.
  assert (H : Forall sized sampleRows).
  { repeat constructor; eexists; (split; [reflexivity | lia]). }
  split; [exact H|]. exact (proj1 (filterImages_partition sampleRows H)).
Defined.

(** X14.  For a record the server produced, the filter unknown keeps its
    row exactly when the row is displayed as Unknown. *)
Theorem unknown_filter_matches_display (pf : Probe.Platform)
  (img : Merge.ImageRecord) (s : Probe.SizedImageRecord) :
  Probe.probe pf img = Probe.Returned s ->
  (keeps "unknown" (fromServer s) = true <-> fileSize (fromServer s) = "Unknown").
Proof.
  unfold Probe.probe. intro H.
  assert (E : exists n, Probe.fileSize s = fst (sizeFields n) /\
                        Probe.fileSizeBytes s = snd (sizeFields n)).
  { destruct (Probe.measure pf img) as [r|e]; inversion H; subst s; simpl.
    - eauto.
    - exists (Num 0). split; reflexivity. }
  destruct E as (n & E1 & E2). unfold keeps. simpl. rewrite E1, E2.
  rewrite sizeFields_Unknown_iff, Probe.snd_sizeFields.
  destruct n as [|z]; simpl.
  - split; discriminate.
  - rewrite Z.eqb_eq. split; [now intros -> | intro X; now inversion X].
Qed.

Lemma unknown_filter_matches_display_witness :
  Probe.probe Probe.deadHost (Probe.imageAt "https://example.com/a.png")
    = Probe.Returned
        (Probe.withSize (Probe.imageAt "https://example.com/a.png")
           ("Unknown", Num 0)) /\
  (keeps "unknown"
     (fromServer (Probe.withSize (Probe.imageAt "https://example.com/a.png")
                    ("Unknown", Num 0))) = true <->
   fileSize (fromServer (Probe.withSize (Probe.imageAt "https://example.com/a.png")
                           ("Unknown", Num 0))) = "Unknown").
Proof.
  split; [reflexivity|].
  apply (unknown_filter_matches_display Probe.deadHost
           (Probe.imageAt "https://example.com/a.png")).
  reflexivity.
Defined.

(** *** Facts about the sort *)

Section Sorting.

Variable A : Type.
Variable compareFn : A -> A -> Z.

(** [a] may stand in front of [b]: the comparator does not place [b]
    strictly before [a]. *)
Definition inOrder (a b : A) : Prop := ~ compareFn b a < 0.

Hypothesis asymmetric : forall a b, compareFn a b < 0 -> ~ compareFn b a < 0.
Hypothesis consistent :
  forall a b c, ~ compareFn a b < 0 -> ~ compareFn b c < 0 -> ~ compareFn a c < 0.

Lemma insertBy_perm (x : A) (l : list A) :
  Permutation (insertBy compareFn x l) (x :: l).
Proof.
  induction l as [|y l IH]; simpl; [reflexivity|].
  destruct (compareFn y x <? 0); [|reflexivity].
  rewrite IH. apply perm_swap.
Qed.

Lemma jsSort_perm (l : list A) : Permutation (jsSort compareFn l) l.
Proof.
  induction l as [|x l IH]; simpl; [constructor|].
  rewrite insertBy_perm. now constructor.
Qed.

Lemma insertBy_sorted (x : A) (l : list A) :
  StronglySorted inOrder l -> StronglySorted inOrder (insertBy compareFn x l).
Proof.
  induction 1 as [|y l Hs IH Hy]; simpl.
  - constructor; constructor.
  - destruct (Z.ltb_spec (compareFn y x) 0) as [Hlt|Hge].
    + constructor; [exact IH|].
      eapply Permutation_Forall; [symmetry; apply insertBy_perm|].
      constructor; [|exact Hy]. unfold inOrder. now apply asymmetric.
    + constructor; [now constructor|].
      constructor; [unfold inOrder; lia|].
      eapply Forall_impl; [|exact Hy]. unfold inOrder. intros z Hz.
      apply (consistent z y x); [exact Hz | lia].
Qed.

Lemma jsSort_sorted (l : list A) : StronglySorted inOrder (jsSort compareFn l).
Proof.
  induction l as [|x l IH]; simpl; [constructor | now apply insertBy_sorted].
Qed.

(** Elements the comparator does not tell apart keep their order. *)
Lemma insertBy_stable (p : A -> bool) (x : A) (l : list A) :
  (forall a b, p a = true -> p b = true -> ~ compareFn a b < 0) ->
  filter p (insertBy compareFn x l) = filter p (x :: l).
Proof.
  intro Hp. induction l as [|y l IH]; [reflexivity|]. simpl.
  destruct (Z.ltb_spec (compareFn y x) 0) as [Hlt|Hge]; [|reflexivity].
  simpl. rewrite IH. simpl.
  destruct (p x) eqn:Ex; [|reflexivity].
  destruct (p y) eqn:Ey; [|reflexivity].
  exfalso. exact (Hp y x Ey Ex Hlt).
Qed.

Lemma jsSort_stable (p : A -> bool) (l : list A) :
  (forall a b, p a = true -> p b = true -> ~ compareFn a b < 0) ->
  filter p (jsSort compareFn l) = filter p l.
Proof.
  intro Hp. induction l as [|x l IH]; [reflexivity|]. simpl jsSort.
  rewrite insertBy_stable by exact Hp. simpl. now rewrite IH.
Qed.

End Sorting.

Lemma StronglySorted_weaken {A : Type} (R R' : A -> A -> Prop) (l : list A) :
  (forall a b, R a b -> R' a b) -> StronglySorted R l -> StronglySorted R' l.
Proof.
  intro H. induction 1 as [|a l _ IH Ha]; constructor; [exact IH|].
  eapply Forall_impl; [|exact Ha]. intros b. apply H.
Qed.

Lemma sortByFileSize_perm (l : list Row) : Permutation (sortByFileSize l) l.
Proof. apply jsSort_perm. Qed.

Lemma sortByFileSize_descending (l : list Row) :
  StronglySorted (fun a b => bytesOf b <= bytesOf a) (sortByFileSize l).
Proof.
  apply StronglySorted_weaken
    with (R := inOrder Row (fun a b => bytesOf b - bytesOf a)).
  - unfold inOrder. intros a b H. lia.
  - apply jsSort_sorted; intros; lia.
Qed.

(** X15.  [sortByFileSize] rearranges the rows so that byte counts never
    increase from one row to the next (null counting as 0), loses and adds
    no row, and keeps rows of equal count in the order they had. *)
Theorem sortByFileSize_sorted (filteredData : list Row) :
  Permutation (sortByFileSize filteredData) filteredData /\
  StronglySorted (fun a b => bytesOf b <= bytesOf a) (sortByFileSize filteredData) /\
  (forall k, filter (fun r => bytesOf r =? k) (sortByFileSize filteredData)
             = filter (fun r => bytesOf r =? k) filteredData).
Proof.
  split; [apply sortByFileSize_perm|].
  split; [apply sortByFileSize_descending|].
  intro k. unfold sortByFileSize. apply jsSort_stable.
  intros a b Ha Hb. apply Z.eqb_eq in Ha, Hb. lia.
Qed.

(** *** [displayResults] (app.js lines 120-151)

    [parsePath u] is the pathname of [new URL(u)], or [None] when the
    constructor throws; what it throws then is a TypeError whose message
    is the browser's own, [urlErrorMessage u]. *)

(** [pathname.split('/').pop()] *)
Definition lastSegment (pathname : string) : string :=
  last (Dom.splitOn "/" pathname) "".

Definition fileNameOf (pathname : string) : string :=
  Dom.orElse (lastSegment pathname) "image".

Definition shortUrlOf (fileName : string) : string :=
  if (40 <? String.length fileName)%nat
  then substring 0 37 fileName ++ "..."
  else fileName.

(** A row of the table body: inserted and still empty, or filled. *)
Inductive TableRow : Type :=
| EmptyRow
| Cells (index : nat) (href shortUrl dimensions size altText : string).

Definition cellsOf (idx : nat) (pathname : string) (img : Row) : TableRow :=
  Cells (idx + 1) (url img) (shortUrlOf (fileNameOf pathname))
        (width img ++ String " " (String "215" (String " " (height img))))
        (fileSize img) (alt img).

Section Browser.

Variable urlErrorMessage : string -> string.

(** The forEach over the rows from index [idx] on: the table rows made,
    and the message of the exception that ended the loop, if one did. *)
Fixpoint renderRows (parsePath : string -> option string) (idx : nat)
  (images : list Row) : list TableRow * option string :=
  match images with
  | [] => ([], None)
  | img :: rest =>
      match parsePath (url img) with
      | None => ([EmptyRow], Some (urlErrorMessage (url img)))
      | Some pathname =>
          let '(rows, failure) := renderRows parsePath (S idx) rest in
          (cellsOf idx pathname img :: rows, failure)
      end
  end.

(** *** Facts about the display *)

Lemma substring_length (n : nat) (s : string) :
  (n <= String.length s)%nat -> String.length (substring 0 n s) = n.
Proof.
  revert s. induction n as [|n IH]; intros s H; [destruct s; reflexivity|].
  destruct s as [|c s]; simpl in *; [lia|]. rewrite IH; lia.
Qed.

Lemma substring_all (P : ascii -> bool) (n : nat) (s : string) :
  Regex.all P s = true -> Regex.all P (substring 0 n s) = true.
Proof.
  revert s. induction n as [|n IH]; intros s H; [destruct s; reflexivity|].
  destruct s as [|c s]; simpl in *; [reflexivity|].
  apply andb_true_iff in H. destruct H as [Hc Hs]. now rewrite Hc, IH.
Qed.

Lemma last_Forall (P : string -> Prop) (l : list string) (d : string) :
  l <> [] -> Forall P l -> P (last l d).
Proof.
  induction l as [|x l IH]; intros Hne H; [contradiction|].
  inversion H; subst. destruct l as [|y l]; [assumption|].
  apply IH; [discriminate | assumption].
Qed.

Lemma fileNameOf_clean (pathname : string) :
  fileNameOf pathname <> "" /\
  Regex.all (Regex.notChar "/") (fileNameOf pathname) = true.
Proof.
  unfold fileNameOf, Dom.orElse. destruct (truthy (lastSegment pathname)) eqn:E.
  - split; [now apply truthy_nonempty|]. unfold lastSegment.
    apply (last_Forall (fun p => Regex.all (Regex.notChar "/") p = true));
      [apply Dom.splitOn_not_nil | apply Dom.splitOn_no_sep].
  - split; [discriminate | reflexivity].
Qed.

(** X16.  The name shown for an image is never empty, never longer than
    40 characters and holds no slash: it is the last segment of the path
    (or the word image when that is empty), unchanged up to 40 characters
    and exactly 40 characters long beyond. *)
Theorem shortUrl_bounds (pathname : string) :
  (1 <= String.length (shortUrlOf (fileNameOf pathname)) <= 40)%nat /\
  Regex.all (Regex.notChar "/") (shortUrlOf (fileNameOf pathname)) = true /\
  ((String.length (fileNameOf pathname) <= 40)%nat ->
     shortUrlOf (fileNameOf pathname) = fileNameOf pathname) /\
  ((40 < String.length (fileNameOf pathname))%nat ->
     String.length (shortUrlOf (fileNameOf pathname)) = 40%nat).
Proof.
  destruct (fileNameOf_clean pathname) as [Hne Hall].
  set (f := fileNameOf pathname) in *. unfold shortUrlOf.
  assert (Hlen : (1 <= String.length f)%nat).
  { destruct f; [contradiction | simpl; lia]. }
  destruct (Nat.ltb_spec 40 (String.length f)) as [Hlong|Hshort].
  - assert (L : String.length (substring 0 37 f ++ "...") = 40%nat).
    { rewrite length_app, substring_length by lia. reflexivity. }
    rewrite L. repeat split; try lia.
    rewrite Regex.all_app, substring_all by assumption. reflexivity.
  - repeat split; try lia. assumption.
Qed.

Definition rendersAll (parsePath : string -> option string) (images : list Row)
  : Prop :=
  Forall (fun img => parsePath (url img) <> None) images.

Lemma renderRows_all (parsePath : string -> option string) (images : list Row) :
  rendersAll parsePath images ->
  forall idx,
    snd (renderRows parsePath idx images) = None /\
    length (fst (renderRows parsePath idx images)) = length images /\
    Forall (fun r => r <> EmptyRow) (fst (renderRows parsePath idx images)).
Proof.
  induction 1 as [|img rest Hp _ IH]; intro idx; simpl.
  - repeat split. constructor.
  - destruct (parsePath (url img)) as [pathname|]; [|contradiction].
    destruct (IH (S idx)) as (E1 & E2 & E3).
    destruct (renderRows parsePath (S idx) rest) as [rows failure]. simpl in *.
    repeat split; [assumption | now rewrite E2|].
    constructor; [discriminate | assumption].
Qed.

(** X17.  The table is filled up to the first row whose URL the URL
    constructor rejects: the rows in front of it are shown, the row itself
    stays empty, no row behind it is inserted, and the loop ends with the
    exception the constructor threw for that URL. *)
Theorem renderRows_stops_at_bad_url (parsePath : string -> option string)
  (good : list Row) (bad : Row) (rest : list Row) (idx : nat) :
  rendersAll parsePath good ->
  parsePath (url bad) = None ->
  fst (renderRows parsePath idx (good ++ bad :: rest))
    = (fst (renderRows parsePath idx good) ++ [EmptyRow])%list /\
  length (fst (renderRows parsePath idx (good ++ bad :: rest)))
    = S (length good) /\
  snd (renderRows parsePath idx (good ++ bad :: rest))
    = Some (urlErrorMessage (url bad)).
Proof.
  intros Hg Hb.
  assert (G : fst (renderRows parsePath idx (good ++ bad :: rest))
              = (fst (renderRows parsePath idx good) ++ [EmptyRow])%list /\
              snd (renderRows parsePath idx (good ++ bad :: rest))
              = Some (urlErrorMessage (url bad))).
  { revert idx. induction Hg as [|img good Hp _ IH]; intro idx; simpl.
    - now rewrite Hb.
    - destruct (parsePath (url img)) as [pathname|]; [|contradiction].
      destruct (IH (S idx)) as [E1 E2].
      destruct (renderRows parsePath (S idx) (good ++ bad :: rest)) as [rows f].
      destruct (renderRows parsePath (S idx) good) as [rows' f'].
      simpl in *. now rewrite E1, E2. }
  destruct G as [G1 G2]. split; [exact G1|]. split; [|exact G2].
  rewrite G1, List.length_app. simpl.
  destruct (renderRows_all parsePath good Hg idx) as (_ & L & _). lia.
Qed.

(** *** [scrapeImages] (app.js lines 5-51) *)

(** What the page shows and holds. *)
Record Ui : Type := {
  errorText : string;
  errorShown : bool;
  resultsShown : bool;
  loadingActive : bool;
  btnTextShown : bool;
  btnDisabled : bool;
  imagesData : list Row;
  filteredData : list Row;
  countShown : Z;
  filteredCountShown : nat;
  table : list TableRow
}.

(** How the request ends: [fetch] or [response.json()] rejects, or an
    answer arrives with [response.ok], [data.error] (empty when absent),
    [data.images] and [data.count]. *)
Inductive FetchOutcome : Type :=
| FetchRejects (message : string)
| Answer (ok : bool) (error : string) (images : list Row) (count : Z).

Definition showError (message : string) (ui : Ui) : Ui :=
  {| errorText := message; errorShown := true;
     resultsShown := resultsShown ui; loadingActive := loadingActive ui;
     btnTextShown := btnTextShown ui; btnDisabled := btnDisabled ui;
     imagesData := imagesData ui; filteredData := filteredData ui;
     countShown := countShown ui; filteredCountShown := filteredCountShown ui;
     table := table ui |}.

(** The statements in front of the try block. *)
Definition startLoading (ui : Ui) : Ui :=
  {| errorText := errorText ui; errorShown := false;
     resultsShown := false; loadingActive := true;
     btnTextShown := false; btnDisabled := true;
     imagesData := imagesData ui; filteredData := filteredData ui;
     countShown := countShown ui; filteredCountShown := filteredCountShown ui;
     table := table ui |}.

(** The finally block. *)
Definition stopLoading (ui : Ui) : Ui :=
  {| errorText := errorText ui; errorShown := errorShown ui;
     resultsShown := resultsShown ui; loadingActive := false;
     btnTextShown := true; btnDisabled := false;
     imagesData := imagesData ui; filteredData := filteredData ui;
     countShown := countShown ui; filteredCountShown := filteredCountShown ui;
     table := table ui |}.

Definition setData (images : list Row) (ui : Ui) : Ui :=
  {| errorText := errorText ui; errorShown := errorShown ui;
     resultsShown := resultsShown ui; loadingActive := loadingActive ui;
     btnTextShown := btnTextShown ui; btnDisabled := btnDisabled ui;
     imagesData := images; filteredData := sortByFileSize images;
     countShown := countShown ui; filteredCountShown := filteredCountShown ui;
     table := table ui |}.

(** [displayResults(images, totalCount)]: the page after it, and the
    message of the exception it threw, if it did. *)
Definition displayResults (parsePath : string -> option string)
  (images : list Row) (totalCount : Z) (ui : Ui) : Ui * option string :=
  let '(rows, failure) := renderRows parsePath 0 images in
  ({| errorText := errorText ui; errorShown := errorShown ui;
      resultsShown := true; loadingActive := loadingActive ui;
      btnTextShown := btnTextShown ui; btnDisabled := btnDisabled ui;
      imagesData := imagesData ui; filteredData := filteredData ui;
      countShown := totalCount; filteredCountShown := length images;
      table := rows |},
   failure).

Definition scrapeImages (fetch : string -> FetchOutcome)
  (parsePath : string -> option string) (input : string) (ui : Ui) : Ui :=
  let url := Dom.trim input in
  if negb (truthy url) then showError "Please enter a URL" ui
  else
    let ui1 := startLoading ui in
    let ui2 :=
      match fetch url with
      | FetchRejects message => showError message ui1
      | Answer false error _ _ =>
          showError (Dom.orElse error "Failed to scrape") ui1
      | Answer true _ images count =>
          let ui' := setData images ui1 in
          match displayResults parsePath (filteredData ui') count ui' with
          | (ui'', Some message) => showError message ui''
          | (ui'', None) => ui''
          end
      end in
    stopLoading ui2.

(** X18.  Whatever the request ends with, [scrapeImages] leaves the
    loading indicator off and the button enabled.  When the request fails
    (it rejects, or the answer is not ok) the results stay hidden, the
    error box shows the message (the server's [error] field when it has
    one), and the rows held from the last successful scrape are kept. *)
Theorem scrapeImages_failure_paths (fetch : string -> FetchOutcome)
  (parsePath : string -> option string) (input : string) (ui : Ui) :
  truthy (Dom.trim input) = true ->
  let ui' := scrapeImages fetch parsePath input ui in
  loadingActive ui' = false /\ btnDisabled ui' = false /\
  btnTextShown ui' = true /\
  (forall message, fetch (Dom.trim input) = FetchRejects message ->
     errorShown ui' = true /\ errorText ui' = message /\
     resultsShown ui' = false /\ imagesData ui' = imagesData ui) /\
  (forall error images count,
     fetch (Dom.trim input) = Answer false error images count ->
     errorShown ui' = true /\
     errorText ui' = Dom.orElse error "Failed to scrape" /\
     resultsShown ui' = false /\ imagesData ui' = imagesData ui).
Proof.
  intro Hu. unfold scrapeImages. rewrite Hu. simpl negb. cbv iota.
  destruct (fetch (Dom.trim input)) as [m|[|] e images count].
  - repeat split; try discriminate; intros; inversion H; subst; reflexivity.
  - destruct (displayResults parsePath _ count _) as [ui'' [m|]];
      repeat split; discriminate.
  - repeat split; try discriminate; intros; inversion H; subst; reflexivity.
Qed.

(** X19.  After an ok answer whose URLs all parse, the page holds the
    rows of the answer, shows them largest first, one filled table row per
    image, no error, and the count the server sent. *)
Theorem scrapeImages_success (fetch : string -> FetchOutcome)
  (parsePath : string -> option string) (input : string) (ui : Ui)
  (error : string) (images : list Row) (count : Z) :
  truthy (Dom.trim input) = true ->
  fetch (Dom.trim input) = Answer true error images count ->
  rendersAll parsePath images ->
  let ui' := scrapeImages fetch parsePath input ui in
  imagesData ui' = images /\
  filteredData ui' = sortByFileSize images /\
  Permutation (filteredData ui') images /\
  StronglySorted (fun a b => bytesOf b <= bytesOf a) (filteredData ui') /\
  errorShown ui' = false /\ resultsShown ui' = true /\
  countShown ui' = count /\ filteredCountShown ui' = length images /\
  length (table ui') = length images /\
  Forall (fun r => r <> EmptyRow) (table ui').
Proof.
  intros Hu Hf Hr. unfold scrapeImages. rewrite Hu, Hf. simpl negb. cbv iota.
  assert (Hr' : rendersAll parsePath (sortByFileSize images)).
  { unfold rendersAll in *. eapply Permutation_Forall; [|exact Hr].
    symmetry. apply sortByFileSize_perm. }
  destruct (renderRows_all parsePath _ Hr' 0) as (E1 & E2 & E3).
  unfold displayResults. cbn [filteredData setData].
  destruct (renderRows parsePath 0 (sortByFileSize images)) as [rows failure].
  simpl in E1, E2, E3. subst failure. simpl.
  repeat split; try assumption.
  - apply sortByFileSize_perm.
  - apply sortByFileSize_descending.
  - rewrite <- (Permutation_length (sortByFileSize_perm images)). reflexivity.
  - rewrite E2. apply Permutation_length, sortByFileSize_perm.
Qed.

End Browser.

(** The message of a browser built on Chromium. *)
Definition chromiumUrlError : string -> string :=
  fun _ => "Failed to construct 'URL': Invalid URL".

Definition blankUi : Ui := {|
  errorText := ""; errorShown := false; resultsShown := false;
  loadingActive := false; btnTextShown := true; btnDisabled := false;
  imagesData := sampleRows; filteredData := sampleRows;
  countShown := 4; filteredCountShown := 4; table := []
|}.

Lemma scrapeImages_failure_paths_witness :
  truthy (Dom.trim " https://example.com/ ") = true /\
  errorText (scrapeImages chromiumUrlError
               (fun _ => Answer false "Failed to scrape images: net::ERR_FAILED" [] 0)
               (fun _ => None) " https://example.com/ " blankUi)
    = "Failed to scrape images: net::ERR_FAILED" /\
  imagesData (scrapeImages chromiumUrlError
                (fun _ => Answer false "Failed to scrape images: net::ERR_FAILED" [] 0)
                (fun _ => None) " https://example.com/ " blankUi)
    = sampleRows.
Proof.
  split; [reflexivity|].
  destruct (scrapeImages_failure_paths chromiumUrlError
              (fun _ => Answer false "Failed to scrape images: net::ERR_FAILED" [] 0)
              (fun _ => None) " https://example.com/ " blankUi eq_refl)
    as (_ & _ & _ & _ & H).
  destruct (H _ _ _ eq_refl) as (_ & H2 & _ & H4).
  split; [exact H2 | exact H4].
Defined.

Lemma scrapeImages_success_witness :
  truthy (Dom.trim "https://example.com/") = true /\
  rendersAll (fun _ => Some "/logo.png") sampleRows /\
  map fileSize
      (filteredData
         (scrapeImages chromiumUrlError (fun _ => Answer true "" sampleRows 4)
            (fun _ => Some "/logo.png") "https://example.com/" blankUi))
    = ["2.50 MB"; "200.00 KB"; "47.08 KB"; "Unknown"].
Proof.
  assert (H : rendersAll (fun _ : string => Some "/logo.png") sampleRows).
  { repeat constructor; discriminate. }
  split; [reflexivity|]. split; [exact H|].
  destruct (scrapeImages_success chromiumUrlError
              (fun _ => Answer true "" sampleRows 4)
              (fun _ => Some "/logo.png") "https://example.com/" blankUi
              "" sampleRows 4 eq_refl eq_refl H) as (_ & E & _).
  rewrite E. reflexivity.
Defined.

Lemma renderRows_stops_at_bad_url_witness :
  rendersAll (fun u => if String.eqb u "httpbin/logo.png" then None
                       else Some "/logo.png")
             [sampleRow "logo.png" (JNum 48213) "47.08 KB"] /\
  length (fst (renderRows chromiumUrlError
                 (fun u => if String.eqb u "httpbin/logo.png" then None
                           else Some "/logo.png") 0
                 ([sampleRow "logo.png" (JNum 48213) "47.08 KB"]
                  ++ {| url := "httpbin/logo.png"; width := "Natural";
                        height := "Natural"; alt := "No alt text"; type := "img";
                        fileSize := "Unknown"; fileSizeBytes := JNum 0 |}
                  :: sampleRows))) = 2%nat.
Proof.
  assert (H : rendersAll (fun u => if String.eqb u "httpbin/logo.png" then None
                                   else Some "/logo.png")
                [sampleRow "logo.png" (JNum 48213) "47.08 KB"]).
  { repeat constructor; discriminate. }
  split; [exact H|].
  exact (proj1 (proj2 (renderRows_stops_at_bad_url chromiumUrlError _
           [sampleRow "logo.png" (JNum 48213) "47.08 KB"]
           {| url := "httpbin/logo.png"; width := "Natural";
              height := "Natural"; alt := "No alt text"; type := "img";
              fileSize := "Unknown"; fileSizeBytes := JNum 0 |}
           sampleRows 0 H eq_refl))).
Defined.

(** *** [sortTable] (app.js lines 78-118) *)

Record SortState : Type := {
  column : Z;
  ascending : bool
}.

(** [let currentSort = { column: 4, ascending: false }] *)
Definition initialSort : SortState := {| column := 4; ascending := false |}.

(** The update of [currentSort] at the head of [sortTable]. *)
Definition nextSort (currentSort : SortState) (col : Z) : SortState :=
  if column currentSort =? col
  then {| column := column currentSort;
          ascending := negb (ascending currentSort) |}
  else {| column := col; ascending := false |}.

(** [c.toLowerCase()] for a code unit below 256: the letters A to Z and
    the accented capitals from U+00C0 to U+00DE, the multiplication sign
    apart, move up by 32. *)
Definition lowerChar (c : ascii) : ascii :=
  let n := N_of_ascii c in
  if ((65 <=? n) && (n <=? 90)
      || (192 <=? n) && (n <=? 222) && negb (n =? 215))%N
  then ascii_of_N (n + 32)
  else c.

Fixpoint toLowerCase (s : string) : string :=
  match s with
  | EmptyString => EmptyString
  | String c s' => String (lowerChar c) (toLowerCase s')
  end.

(** The tail of the comparator: the two tests of [valA] against [valB]. *)
Definition threeWay {K : Type} (lt : K -> K -> bool) (asc : bool) (valA valB : K)
  : Z :=
  if lt valA valB then (if asc then -1 else 1)
  else if lt valB valA then (if asc then 1 else -1)
  else 0.

(** The comparator given to [filteredData.sort] for a column. *)
Definition tableCompare (col : Z) (asc : bool) (a b : Row) : Z :=
  if col =? 0 then 0
  else if col =? 2
       then threeWay String.ltb asc (toLowerCase (url a)) (toLowerCase (url b))
  else if col =? 3
       then threeWay String.ltb asc (width a ++ height a) (width b ++ height b)
  else if col =? 4 then threeWay Z.ltb asc (bytesOf a) (bytesOf b)
  else if col =? 5
       then threeWay String.ltb asc (toLowerCase (alt a)) (toLowerCase (alt b))
  else 0.

Definition sortTable (currentSort : SortState) (col : Z) (filteredData : list Row)
  : SortState * list Row :=
  let currentSort' := nextSort currentSort col in
  (currentSort', jsSort (tableCompare col (ascending currentSort')) filteredData).

(** *** Facts about [sortTable] *)

Lemma char_compare_refl (c : ascii) : Ascii.compare c c = Eq.
Proof. unfold Ascii.compare. apply N.compare_refl. Qed.

(** The order of strings by code units is transitive. *)
Lemma string_leb_trans (a : string) :
  forall b c,
    String.compare a b <> Gt -> String.compare b c <> Gt ->
    String.compare a c <> Gt.
Proof.
  induction a as [|x a IH]; intros b c Hab Hbc.
  - destruct c; simpl; discriminate.
  - destruct b as [|y b]; [simpl in Hab; congruence|].
    destruct c as [|z c]; [simpl in Hbc; congruence|].
    simpl in *. unfold Ascii.compare in *.
    destruct (N.compare_spec (N_of_ascii x) (N_of_ascii y)) as [E1|L1|G1];
      [|clear Hab|congruence];
      (destruct (N.compare_spec (N_of_ascii y) (N_of_ascii z)) as [E2|L2|G2];
       [|clear Hbc|congruence]).
    + rewrite E1, E2, N.compare_refl. now apply (IH b c).
    + rewrite E1. apply N.compare_lt_iff in L2. rewrite L2. discriminate.
    + rewrite <- E2. apply N.compare_lt_iff in L1. rewrite L1. discriminate.
    + assert (L : (N_of_ascii x < N_of_ascii z)%N) by lia.
      apply N.compare_lt_iff in L. rewrite L. discriminate.
Qed.

Lemma string_ltb_asym (a b : string) :
  String.ltb a b = true -> String.ltb b a = false.
Proof.
  unfold String.ltb. rewrite (String.compare_antisym b a).
  destruct (String.compare a b); simpl; congruence.
Qed.

Lemma string_ltb_negtrans (a b c : string) :
  String.ltb a b = false -> String.ltb b c = false -> String.ltb a c = false.
Proof.
  unfold String.ltb. intros Hab Hbc.
  assert (H1 : String.compare b a <> Gt).
  { rewrite (String.compare_antisym b a).
    destruct (String.compare a b); simpl; congruence. }
  assert (H2 : String.compare c b <> Gt).
  { rewrite (String.compare_antisym c b).
    destruct (String.compare b c); simpl; congruence. }
  pose proof (string_leb_trans c b a H2 H1) as H3.
  rewrite (String.compare_antisym c a) in H3.
  destruct (String.compare a c); simpl in *; congruence.
Qed.

Section ThreeWay.

Variable K : Type.
Variable lt : K -> K -> bool.
Hypothesis lt_asym : forall a b, lt a b = true -> lt b a = false.
Hypothesis lt_negtrans :
  forall a b c, lt a b = false -> lt b c = false -> lt a c = false.

Lemma threeWay_before (asc : bool) (a b : K) :
  threeWay lt asc a b < 0 <-> (if asc then lt a b else lt b a) = true.
Proof.
  unfold threeWay. destruct (lt a b) eqn:E1.
  - rewrite (lt_asym a b E1). destruct asc; split; (lia || congruence).
  - destruct (lt b a) eqn:E2; destruct asc; split; (lia || congruence).
Qed.

(** Sorting by a key with the three-way comparator puts the keys in the
    direction asked for. *)
Lemma jsSort_threeWay (A : Type) (key : A -> K) (asc : bool) (l : list A) :
  StronglySorted
    (fun a b => (if asc then lt (key b) (key a) else lt (key a) (key b)) = false)
    (jsSort (fun a b => threeWay lt asc (key a) (key b)) l).
Proof.
  apply StronglySorted_weaken
    with (R := inOrder A (fun a b => threeWay lt asc (key a) (key b))).
  - unfold inOrder. intros a b H. rewrite threeWay_before in H.
    destruct asc; destruct (lt (key b) (key a)) eqn:E1;
      destruct (lt (key a) (key b)) eqn:E2; congruence.
  - apply jsSort_sorted.
    + intros a b H. rewrite threeWay_before in *.
      destruct asc; [rewrite (lt_asym _ _ H) | rewrite (lt_asym _ _ H)];
        discriminate.
    + intros a b c H1 H2. rewrite threeWay_before in *.
      destruct asc.
      * destruct (lt (key a) (key b)) eqn:E1; [congruence|].
        destruct (lt (key b) (key c)) eqn:E2; [congruence|].
        rewrite (lt_negtrans _ _ _ E1 E2). discriminate.
      * destruct (lt (key b) (key a)) eqn:E1; [congruence|].
        destruct (lt (key c) (key b)) eqn:E2; [congruence|].
        rewrite (lt_negtrans _ _ _ E2 E1). discriminate.
Qed.

End ThreeWay.

Lemma jsSort_no_order {A : Type} (l : list A) : jsSort (fun _ _ => 0) l = l.
Proof.
  induction l as [|x l IH]; [reflexivity|]. simpl. rewrite IH.
  destruct l; reflexivity.
Qed.

(** X20.  [sortTable] never loses or adds a row.  A click on the File
    Size, URL or Alt Text header orders the rows by that column (strings
    in lower case, by code units) in the direction the click sets:
    descending on a new column, the opposite of the last direction on the
    same column.  A click on the index or preview header leaves the rows
    as they are. *)
Theorem sortTable_orders (currentSort : SortState) (col : Z)
  (filteredData : list Row) :
  let asc := ascending (fst (sortTable currentSort col filteredData)) in
  let rows := snd (sortTable currentSort col filteredData) in
  Permutation rows filteredData /\
  asc = (if column currentSort =? col then negb (ascending currentSort)
         else false) /\
  (col = 4 ->
     StronglySorted (fun a b => if asc then bytesOf a <= bytesOf b
                                else bytesOf b <= bytesOf a) rows) /\
  (col = 2 ->
     StronglySorted
       (fun a b => if asc
                   then String.leb (toLowerCase (url a)) (toLowerCase (url b)) = true
                   else String.leb (toLowerCase (url b)) (toLowerCase (url a)) = true)
       rows) /\
  (col = 5 ->
     StronglySorted
       (fun a b => if asc
                   then String.leb (toLowerCase (alt a)) (toLowerCase (alt b)) = true
                   else String.leb (toLowerCase (alt b)) (toLowerCase (alt a)) = true)
       rows) /\
  (col = 0 \/ col = 1 -> rows = filteredData).
Proof.
  unfold sortTable. cbn [fst snd].
  set (asc := ascending (nextSort currentSort col)).
  assert (Hleb : forall x y, String.ltb y x = false -> String.leb x y = true).
  { intros x y. unfold String.ltb, String.leb.
    rewrite (String.compare_antisym y x).
    destruct (String.compare x y); simpl; congruence. }
  split; [apply jsSort_perm|]. split.
  { unfold asc, nextSort. destruct (column currentSort =? col); reflexivity. }
  split; [|split; [|split]].
  - intros ->. unfold tableCompare. simpl.
    apply StronglySorted_weaken
      with (R := fun a b => (if asc then Z.ltb (bytesOf b) (bytesOf a)
                             else Z.ltb (bytesOf a) (bytesOf b)) = false).
    + intros a b. destruct asc; lia.
    + apply (jsSort_threeWay Z Z.ltb); intros; lia.
  - intros ->. unfold tableCompare. simpl.
    apply StronglySorted_weaken
      with (R := fun a b =>
                   (if asc
                    then String.ltb (toLowerCase (url b)) (toLowerCase (url a))
                    else String.ltb (toLowerCase (url a)) (toLowerCase (url b)))
                   = false).
    + intros a b. destruct asc; apply Hleb.
    + apply (jsSort_threeWay string String.ltb string_ltb_asym string_ltb_negtrans
               Row (fun r => toLowerCase (url r))).
  - intros ->. unfold tableCompare. simpl.
    apply StronglySorted_weaken
      with (R := fun a b =>
                   (if asc
                    then String.ltb (toLowerCase (alt b)) (toLowerCase (alt a))
                    else String.ltb (toLowerCase (alt a)) (toLowerCase (alt b)))
                   = false).
    + intros a b. destruct asc; apply Hleb.
    + apply (jsSort_threeWay string String.ltb string_ltb_asym string_ltb_negtrans
               Row (fun r => toLowerCase (alt r))).
  - intros [->| ->]; unfold tableCompare; simpl; apply jsSort_no_order.
Qed.

(** *** [exportCSV] (app.js lines 159-172) *)

Definition lineFeed : ascii := "010"%char.

Definition headerLine : string :=
  Dom.join "," ["#"; "Image URL"; "Dimensions"; "File Size"; "Alt Text"].

(** A cell between double quotes, as the template writes it. *)
Definition quoted (cell : string) : string :=
  String "034" (cell ++ String "034" "").

Definition csvCells (idx : nat) (img : Row) : list string :=
  [decimal (Z.of_nat idx + 1); url img;
   width img ++ String " " (String "215" (String " " (height img)));
   fileSize img; alt img].

Definition csvLine (idx : nat) (img : Row) : string :=
  Dom.join "," (map quoted (csvCells idx img)).

(** [filteredData.map((img, idx) => ...)] from index [idx] on. *)
Fixpoint csvLines (idx : nat) (rows : list Row) : list string :=
  match rows with
  | [] => []
  | img :: rest => csvLine idx img :: csvLines (S idx) rest
  end.

(** The text of the exported file. *)
Definition exportCSV (filteredData : list Row) : string :=
  Dom.join (String lineFeed "") (headerLine :: csvLines 0 filteredData).

(** No field of the row holds a line feed. *)
Definition singleLine (img : Row) : Prop :=
  Regex.all (Regex.notChar lineFeed) (url img) = true /\
  Regex.all (Regex.notChar lineFeed) (width img) = true /\
  Regex.all (Regex.notChar lineFeed) (height img) = true /\
  Regex.all (Regex.notChar lineFeed) (fileSize img) = true /\
  Regex.all (Regex.notChar lineFeed) (alt img) = true.

Lemma splitOn_join_char (sep : ascii) (pieces : list string) :
  pieces <> [] ->
  Forall (fun p => Regex.all (Regex.notChar sep) p = true) pieces ->
  Dom.splitOn sep (Dom.join (String sep "") pieces) = pieces.
Proof.
  induction pieces as [|p pieces IH]; intros Hne H; [contradiction|].
  inversion H as [|x l Hp Hl]; subst. destruct pieces as [|q pieces].
  - simpl. now apply Dom.splitOn_clean.
  - change (Dom.join (String sep "") (p :: q :: pieces))
      with (p ++ String sep (Dom.join (String sep "") (q :: pieces))).
    rewrite (Dom.splitOn_app_sep sep p _ Hp), IH by (discriminate || assumption).
    reflexivity.
Qed.

Lemma join_all (P : ascii -> bool) (sep : string) (pieces : list string) :
  Regex.all P sep = true ->
  Forall (fun p => Regex.all P p = true) pieces ->
  Regex.all P (Dom.join sep pieces) = true.
Proof.
  intros Hs H. induction H as [|p pieces Hp _ IH]; [reflexivity|].
  destruct pieces as [|q pieces]; [exact Hp|].
  change (Dom.join sep (p :: q :: pieces))
    with (p ++ sep ++ Dom.join sep (q :: pieces)).
  now rewrite !Regex.all_app, Hp, Hs, IH.
Qed.

Lemma digits_all (P : ascii -> bool) (d : Decimal.uint) :
  Regex.all P "0123456789" = true ->
  Regex.all P (NilEmpty.string_of_uint d) = true.
Proof.
  intro H. simpl in H. repeat (apply andb_true_iff in H; destruct H as [? H]).
  induction d; simpl; try reflexivity; apply andb_true_iff; split; assumption.
Qed.

Lemma decimal_all (P : ascii -> bool) (z : Z) :
  Regex.all P "0123456789" = true -> Regex.all P (decimal z) = true.
Proof.
  intro H. unfold decimal.
  destruct (N.to_uint (Z.to_N z));
    match goal with
    | |- Regex.all P (NilZero.string_of_uint Decimal.Nil) = true =>
        simpl in *; apply andb_true_iff in H; destruct H as [H0 _]; now rewrite H0
    | |- Regex.all P (NilZero.string_of_uint ?x) = true =>
        exact (digits_all P x H)
    end.
Qed.

Lemma csvLine_single (idx : nat) (img : Row) :
  singleLine img -> Regex.all (Regex.notChar lineFeed) (csvLine idx img) = true.
Proof.
  intros (H1 & H2 & H3 & H4 & H5). unfold csvLine, csvCells.
  apply join_all; [reflexivity|].
  assert (Q : forall c, Regex.all (Regex.notChar lineFeed) c = true ->
                        Regex.all (Regex.notChar lineFeed) (quoted c) = true).
  { intros c Hc. unfold quoted. simpl. now rewrite Regex.all_app, Hc. }
  repeat constructor; apply Q; try assumption.
  - now apply decimal_all.
  - rewrite Regex.all_app, H2. simpl. exact H3.
Qed.

Lemma csvLines_length (rows : list Row) :
  forall idx, length (csvLines idx rows) = length rows.
Proof. induction rows as [|r rows IH]; intro idx; simpl; [reflexivity | now rewrite IH]. Qed.

(** X22.  When no field of a row holds a line feed, the exported text
    splits at its line feeds into the header and one line per row, in the
    order of the table. *)
Theorem exportCSV_lines (filteredData : list Row) :
  Forall singleLine filteredData ->
  Dom.splitOn lineFeed (exportCSV filteredData)
    = headerLine :: csvLines 0 filteredData /\
  length (Dom.splitOn lineFeed (exportCSV filteredData))
    = S (length filteredData).
Proof.
  intro H.
  assert (E : Dom.splitOn lineFeed (exportCSV filteredData)
              = headerLine :: csvLines 0 filteredData).
  { unfold exportCSV. apply splitOn_join_char; [discriminate|].
    constructor; [reflexivity|].
    generalize 0%nat. induction H as [|r rows Hr _ IH]; intro idx; simpl;
      constructor; [now apply csvLine_single | apply IH]. }
  split; [exact E|]. rewrite E. simpl. now rewrite csvLines_length.
Qed.

Lemma exportCSV_lines_witness :
  Forall singleLine sampleRows /\
  length (Dom.splitOn lineFeed (exportCSV sampleRows)) = 5%nat.
Proof.
  assert (H : Forall singleLine sampleRows).
  { repeat constructor. }
  split; [exact H|]. exact (proj2 (exportCSV_lines sampleRows H)).
Defined.

End Frontend.
